(** * scalpel: the protocol layer, embedded and verified

    A shallow embedding of the parts of [compression.go], [option.go],
    [protocol_connect.go] and the error writer that the protocol
    specification talks about, with the properties proved about them.

    Conventions of the embedding:
    - a Go [string] is a [String.string] (a sequence of bytes), a [[]byte]
      is a [list Byte.byte]; the conversions [string(data)] and
      [[]byte(s)] are [string_of_list_byte] and [list_byte_of_string];
    - a Go [map[string]V] is a [gmap string V];
    - a nil-able pointer or interface value is an [option];
    - Go [int] and the [uint32]-based [Code] are [Z];
    - a function returning [*Error] or [error] returns an [option]
      ([None] is Go's [nil]);
    - code that mutates its receiver returns the updated receiver. *)

From Stdlib Require Import ZArith Ascii List Lia.
From Stdlib Require String.
From Stdlib.Strings Require Import Byte.
From stdpp Require Import base gmap sets list strings pretty.

Local Open Scope Z_scope.

(** ** Go's [strings] package, as far as the sources use it *)

Module strings.

(** [strings.HasPrefix(s, prefix)] *)
Definition HasPrefix (s pre : string) : bool := String.prefix pre s.

(** [strings.TrimPrefix(s, prefix)]: [s[len(prefix):]] when [s] starts
    with [prefix], otherwise [s]. *)
Definition TrimPrefix (s pre : string) : string :=
  if HasPrefix s pre
  then String.substring (String.length pre)
         (String.length s - String.length pre) s
  else s.

(** [strings.Contains(s, substr)] *)
Fixpoint Contains (s sub : string) : bool :=
  String.prefix sub s ||
  match s with
  | EmptyString => false
  | String _ s' => Contains s' sub
  end.

(** [strings.Join(elems, sep)] *)
Definition Join (elems : list string) (sep : string) : string :=
  String.concat sep elems.

End strings.

(** ** [net/http] constants used by the sources *)

Module http.
Definition MethodGet : string := "GET".
Definition MethodPost : string := "POST".
Definition StatusOK : Z := 200.
Definition StatusNotModified : Z := 304.

(** [http.Header] is [map[string][]string]. *)
Abbreviation Header := (gmap string (list string)).
End http.

(** ** The [Code] enumeration *)

(** [type Code uint32]: any 32-bit value can sit in a [Code], also one that
    names no member of the enumeration. *)
Definition Code : Type := Z.

(** Modelled from the spec: the declaration of the [Code] constants
    (code.go) is not among the sources.  The specification lists the
    sixteen members in their order, Canceled first and Unauthenticated
    last, as a total order with a minimum and a maximum; the zero value
    is the unset code and names no member. *)
Definition CodeCanceled : Code := 1.
Definition CodeUnknown : Code := 2.
Definition CodeInvalidArgument : Code := 3.
Definition CodeDeadlineExceeded : Code := 4.
Definition CodeNotFound : Code := 5.
Definition CodeAlreadyExists : Code := 6.
Definition CodePermissionDenied : Code := 7.
Definition CodeResourceExhausted : Code := 8.
Definition CodeFailedPrecondition : Code := 9.
Definition CodeAborted : Code := 10.
Definition CodeOutOfRange : Code := 11.
Definition CodeUnimplemented : Code := 12.
Definition CodeInternal : Code := 13.
Definition CodeUnavailable : Code := 14.
Definition CodeDataLoss : Code := 15.
Definition CodeUnauthenticated : Code := 16.
Definition minCode : Code := CodeCanceled.
Definition maxCode : Code := CodeUnauthenticated.

(** A [Code] is a member of the enumeration. *)
Definition inEnumeration (c : Code) : Prop := minCode <= c <= maxCode.

(** [connectCodeToHTTP] (protocol_connect.go): a [switch] over the sixteen
    members with a [default] arm. *)
Definition connectCodeToHTTP (code : Code) : Z :=
  if code =? CodeCanceled then 499
  else if code =? CodeUnknown then 500
  else if code =? CodeInvalidArgument then 400
  else if code =? CodeDeadlineExceeded then 504
  else if code =? CodeNotFound then 404
  else if code =? CodeAlreadyExists then 409
  else if code =? CodePermissionDenied then 403
  else if code =? CodeResourceExhausted then 429
  else if code =? CodeFailedPrecondition then 400
  else if code =? CodeAborted then 409
  else if code =? CodeOutOfRange then 400
  else if code =? CodeUnimplemented then 501
  else if code =? CodeInternal then 500
  else if code =? CodeUnavailable then 503
  else if code =? CodeDataLoss then 500
  else if code =? CodeUnauthenticated then 401
  else 500.

(** ** Compression registry (compression.go) *)

Module Compression.

Definition compressionIdentity : string := "identity".

(** [type compressionPool struct {}] *)
Record compressionPool : Type := mkCompressionPool {}.

(** The registry stores [*compressionPool]: a pointer that may be nil. *)
Definition poolPtr : Type := option compressionPool.

Record namedCompressionPools : Type := mkNamedCompressionPools {
  nameToPool : gmap string poolPtr;
  commaSeparatedNames : string
}.

(** One turn of the loop of [newReadOnlyCompressionPools]: [continue]
    when the name was seen, otherwise mark it and append it. *)
Definition visitName (st : gset string * list string) (name : string)
  : gset string * list string :=
  let (seen, names) := st in
  if decide (name ∈ seen) then st
  else ({[name]} ∪ seen, names ++ [name]).

(** The loop runs [i] from [len(reversedNames) - 1] down to [0]: the
    names are visited last to first. *)
Definition preferredNames (reversedNames : list string) : list string :=
  snd (foldl visitName (∅, []) (rev reversedNames)).

Definition newReadOnlyCompressionPools
    (nameToPool : gmap string poolPtr) (reversedNames : list string)
  : namedCompressionPools :=
  {| nameToPool := nameToPool;
     commaSeparatedNames := strings.Join (preferredNames reversedNames) "," |}.

Definition Get (m : namedCompressionPools) (name : string) : poolPtr :=
  if decide (name = "" ∨ name = compressionIdentity) then None
  else default None (nameToPool m !! name).

Definition Contains (m : namedCompressionPools) (name : string) : bool :=
  bool_decide (is_Some (nameToPool m !! name)).

Definition CommaSeparatedNames (m : namedCompressionPools) : string :=
  commaSeparatedNames m.

(** Modelled from the spec: the option that registers a compression
    (and the config fields it fills) is not among the sources.  Client
    and handler configs keep the compression names in registration
    order next to the name-to-pool map; registering a name appends it
    to the names and binds it in the map. *)
Record compressionConfig : Type := mkCompressionConfig {
  CompressionNames : list string;
  CompressionPools : gmap string poolPtr
}.

Definition emptyCompressionConfig : compressionConfig :=
  {| CompressionNames := []; CompressionPools := ∅ |}.

Definition register (cfg : compressionConfig) (name : string)
    (pool : compressionPool) : compressionConfig :=
  {| CompressionNames := CompressionNames cfg ++ [name];
     CompressionPools := <[name := Some pool]> (CompressionPools cfg) |}.

Definition registerAll (names : list string) : compressionConfig :=
  foldl (fun cfg name => register cfg name mkCompressionPool)
        emptyCompressionConfig names.

Definition registryOf (cfg : compressionConfig) : namedCompressionPools :=
  newReadOnlyCompressionPools (CompressionPools cfg) (CompressionNames cfg).

End Compression.

(** ** Go values the protocol layer passes around *)

(** Go [error] values.  [fmt_Errorf] keeps the format and the printed
    arguments, [fmt_Errorf_w] also the error wrapped with [%w];
    [sentinel] is a package-level error variable, compared by identity;
    [foreign] is an error made by a library outside this package. *)
Inductive error : Type :=
| errors_New (text : string)
| fmt_Errorf (format : string) (args : list string)
| fmt_Errorf_w (format : string) (args : list string) (wrapped : error)
| sentinel (name : string)
| foreign (pkg text : string).

(** A call that returns [(value, error)]. *)
Inductive result (A : Type) : Type :=
| Ok (a : A)
| Err (e : error).
Arguments Ok {A} a.
Arguments Err {A} e.

Definition isOk {A : Type} (r : result A) : bool :=
  match r with Ok _ => true | Err _ => false end.

(** Bind of the error monad, the [if err != nil { return err }] idiom;
    written [x ← r; k]. *)
#[global] Instance result_bind : MBind result := fun A B k r =>
  match r with
  | Ok a => k a
  | Err e => Err e
  end.

(** Decoding every element of a slice, stopping at the first error. *)
Fixpoint mapResult {A B : Type} (f : A → result B) (l : list A)
  : result (list B) :=
  match l with
  | [] => Ok []
  | a :: l' => b ← f a; bs ← mapResult f l'; Ok (b :: bs)
  end.

(** [anypb.Any]: a type URL and the encoded payload. *)
Record Any : Type := mkAny {
  TypeUrl : string;
  Value : list byte
}.

(** The getters of generated protobuf code accept a nil receiver. *)
Definition GetTypeUrl (x : option Any) : string :=
  match x with Some a => TypeUrl a | None => "" end.
Definition GetValue (x : option Any) : list byte :=
  match x with Some a => Value a | None => [] end.

(** [StreamType] *)
Inductive StreamType : Type :=
| StreamTypeUnary
| StreamTypeClient
| StreamTypeServer
| StreamTypeBidi.

#[global] Instance StreamType_eq_dec : EqDecision StreamType.
Proof. solve_decision. Defined.

(** Go types the embedding leaves opaque: values of type [any], protobuf
    messages, and the three function types interceptors wrap
    (interceptor.go of the sources declares them as
    [func(context.Context, AnyRequest) (AnyResponse, error)],
    [func(context.Context, Spec) StreamingClientConn] and
    [func(context.Context, StreamingHandlerConn) error]). *)
Class GoTypes : Type := {
  anyValue : Type;
  protoMessage : Type;
  UnaryFunc : Type;
  StreamingClientFunc : Type;
  StreamingHandlerFunc : Type
}.

(** ** Error model *)

Section ErrorModel.
Context {T : GoTypes}.

(** Modelled from the spec: the declarations of [ErrorDetail] and
    [Error] (error.go) are not among the sources.  An ErrorDetail holds
    a type URL and an opaque binary payload (the [Any]), an optional
    already-resolved in-memory message, and an optional cache of the
    original wire JSON; the field names are those the sources use. *)
Record ErrorDetail : Type := mkErrorDetail {
  pbAny : option Any;
  pbInner : option protoMessage;
  wireJSON : string
}.

(** Modelled from the spec: an Error holds a Code, the underlying error
    with the human message, the ordered details, per-call metadata, and
    the flag telling an error received from the wire from a locally
    constructed one. *)
Record Error : Type := mkError {
  code : Code;
  err : error;
  details : list (option ErrorDetail);
  meta : http.Header;
  wireErr : bool
}.

(** Modelled from the spec: [NewError] builds a locally constructed
    error, [NewWireError] one marked as received from the wire, and
    [errorf] a local error whose message is a formatted string. *)
Definition NewError (c : Code) (underlying : error) : Error :=
  {| code := c; err := underlying; details := []; meta := ∅;
     wireErr := false |}.

Definition NewWireError (c : Code) (underlying : error) : Error :=
  let e := NewError c underlying in
  {| code := code e; err := err e; details := details e; meta := meta e;
     wireErr := true |}.

Definition errorf (c : Code) (template : string) (args : list string) : Error :=
  NewError c (fmt_Errorf template args).

(** A Go [error] interface value handed to the error writer is either
    an [*Error] of this package or some other error. *)
Inductive errorValue : Type :=
| connectError (e : Error)
| otherError (e : error).

End ErrorModel.

(** Modelled from the spec: the sentinel a client gets for a 304 answer
    to a GET (declared outside the sources). *)
Definition errNotModifiedClient : error := sentinel "errNotModifiedClient".

(** Modelled from the spec: the codec interface (codec.go is not among
    the sources) names a serialization and converts messages to and from
    bytes. *)
Record Codec {T : GoTypes} : Type := mkCodec {
  Name : string;
  Marshal : anyValue → result (list byte);
  Unmarshal : list byte → result anyValue
}.

(** Modelled from the spec: codec names; a bare JSON subtype and the
    JSON-with-charset subtype, as in [application/json; charset=utf-8]. *)
Definition codecNameJSON : string := "json".
Definition codecNameJSONCharsetUTF8 : string := codecNameJSON +:+ "; charset=utf-8".

(** ** What the sources call but do not define *)

(** The fields of the anonymous struct that
    [connectWireError.UnmarshalJSON] decodes into.  [encoding/json] hands
    every element of ["details"] to [connectWireDetail.UnmarshalJSON] as
    raw bytes, and leaves the pointer nil for a JSON [null]. *)
Record wireErrorFields : Type := mkWireErrorFields {
  fieldCode : string;
  fieldMessage : string;
  fieldDetails : list (option (list byte))
}.

(** Go's standard library and the protobuf runtime, as the sources call
    them. *)
Class GoLibraries {T : GoTypes} : Type := {
  (** [json.Unmarshal(data, &wire)] for
      [wire struct { Type string; Value string }] *)
  json_Unmarshal_detail : list byte → result (string * string);
  (** [json.Unmarshal(data, &wireError)] up to the decoding of the
      elements of [Details] *)
  json_Unmarshal_wireError : list byte → result wireErrorFields;
  (** [json.Marshal(wire)] for
      [wire struct { Type, Value string; Debug json.RawMessage }] *)
  json_Marshal_detail : string → string → option (list byte) → result (list byte);
  (** [base64.RawStdEncoding.EncodeToString] *)
  base64_RawStdEncoding_EncodeToString : list byte → string;
  (** [UnmarshalNew] of [anypb.Any]: fails without a descriptor for the
      type URL *)
  Any_UnmarshalNew : option Any → result protoMessage;
  (** [protoJSONCodec.Marshal] *)
  protoJSONCodec_Marshal : protoMessage → result (list byte);
  (** the order in which [for k := range h] visits the keys of a map:
      unspecified by the language *)
  rangeOrder : http.Header → list string
}.

(** Functions and constants of this package that the sources use and that
    are declared in files outside them.  They are parameters of the
    embedding. *)
Class PackageHelpers {T : GoTypes} : Type := {
  DecodeBinaryHeader : string → result (list byte);
  typeNameForURL : string → string;
  defaultAnyResolverPrefix : string;
  (** [UnmarshalText] of [Code]: the decoded code, or an error that leaves
      the receiver as it was *)
  Code_UnmarshalText : list byte → result Code;
  httpToCode : Z → Code;
  canonicalizeContentType : string → string;
  (** [grpcErrorToTrailer(trailer, protobuf, err)]: the trailer map after
      the call *)
  grpcErrorToTrailer : http.Header → option Codec → option errorValue → http.Header
}.

(** ** Connect protocol: wire errors (protocol_connect.go) *)

Section ConnectWire.
Context {T : GoTypes} {L : GoLibraries} {P : PackageHelpers}.

(** [type connectWireDetail ErrorDetail] *)
Definition connectWireDetail : Type := ErrorDetail.

Definition getInner (d : connectWireDetail) : result protoMessage :=
  match pbInner d with
  | Some inner => Ok inner
  | None => Any_UnmarshalNew (pbAny d)
  end.

Definition MarshalJSON (d : connectWireDetail) : result (list byte) :=
  if negb (String.eqb (wireJSON d) "") then
    Ok (String.list_byte_of_string (wireJSON d))
  else
    let wireType := typeNameForURL (GetTypeUrl (pbAny d)) in
    let wireValue := base64_RawStdEncoding_EncodeToString (GetValue (pbAny d)) in
    let wireDebug :=
      match getInner d with
      | Ok msg =>
          match protoJSONCodec_Marshal msg with
          | Ok debug => Some debug
          | Err _ => None
          end
      | Err _ => None
      end in
    json_Marshal_detail wireType wireValue wireDebug.

(** On success the receiver is overwritten as a whole, so the embedding
    returns the new detail. *)
Definition UnmarshalJSON (data : list byte) : result connectWireDetail :=
  '(wireType, wireValue) ← json_Unmarshal_detail data;
  let wireType :=
    if negb (strings.Contains wireType "/")
    then defaultAnyResolverPrefix +:+ wireType
    else wireType in
  match DecodeBinaryHeader wireValue with
  | Err e => Err (fmt_Errorf_w "decode base64: %w" [] e)
  | Ok decoded =>
      Ok {| pbAny := Some {| TypeUrl := wireType; Value := decoded |};
            pbInner := None;
            wireJSON := String.string_of_list_byte data |}
  end.

Record connectWireError : Type := mkConnectWireError {
  Code_ : Code;
  Message : string;
  Details : list (option connectWireDetail)
}.

(** The zero value of the struct: what [json.Unmarshal] allocates
    before it calls [UnmarshalJSON], and what [var e connectWireError]
    declares. *)
Definition zeroWireError : connectWireError :=
  {| Code_ := 0; Message := ""; Details := [] |}.

(** One element of ["details"]: nil for [null], otherwise decoded by
    [connectWireDetail.UnmarshalJSON]. *)
Definition unmarshalDetailPtr (raw : option (list byte))
  : result (option connectWireDetail) :=
  match raw with
  | None => Ok None
  | Some data => d ← UnmarshalJSON data; Ok (Some d)
  end.

(** [connectWireError.UnmarshalJSON]: [e] is the receiver before the
    call, the result the receiver after it. *)
Definition wireError_UnmarshalJSON (e : connectWireError) (data : list byte)
  : result connectWireError :=
  wireError ← json_Unmarshal_wireError data;
  wireDetails ← mapResult unmarshalDetailPtr (fieldDetails wireError);
  let e1 := {| Code_ := Code_ e; Message := fieldMessage wireError;
               Details := wireDetails |} in
  match Code_UnmarshalText (String.list_byte_of_string (fieldCode wireError)) with
  | Ok c => Ok {| Code_ := c; Message := Message e1; Details := Details e1 |}
  | Err _ => Ok e1
  end.

(** [connectWireError.asError]: the receiver after the call (its code
    is overwritten when out of range) and the returned [*Error]. *)
Definition asError (e : option connectWireError)
  : option connectWireError * option Error :=
  match e with
  | None => (None, None)
  | Some e =>
      let e :=
        if (Code_ e <? minCode) || (Code_ e >? maxCode)
        then {| Code_ := CodeUnknown; Message := Message e; Details := Details e |}
        else e in
      let err0 := NewWireError (Code_ e) (errors_New (Message e)) in
      let err1 :=
        if (0 <? length (Details e))%nat
        then {| code := code err0; err := err err0; details := Details e;
                meta := meta err0; wireErr := wireErr err0 |}
        else err0 in
      (Some e, Some err1)
  end.

(** ** Connect protocol: response content type *)

Definition connectUnaryContentTypePrefix : string := "application/".
Definition connectStreamingContentTypePrefix : string := "application/connect+".

Definition connectCodecForContentType (streamType : StreamType)
    (contentType : string) : string :=
  if decide (streamType = StreamTypeUnary)
  then strings.TrimPrefix contentType connectUnaryContentTypePrefix
  else strings.TrimPrefix contentType connectStreamingContentTypePrefix.

Definition connectValidateUnaryResponseContentType
    (requestCodecName httpMethod : string) (statusCode : Z)
    (statusMsg responseContentType : string) : option Error :=
  if negb (statusCode =? http.StatusOK) then
    if (statusCode =? http.StatusNotModified)
       && String.eqb httpMethod http.MethodGet
    then Some (NewWireError CodeUnknown errNotModifiedClient)
    else if String.eqb responseContentType
              (connectUnaryContentTypePrefix +:+ codecNameJSON)
            || String.eqb responseContentType
                 (connectUnaryContentTypePrefix +:+ codecNameJSONCharsetUTF8)
    then None
    else Some (NewError (httpToCode statusCode) (errors_New statusMsg))
  else if negb (strings.HasPrefix responseContentType connectUnaryContentTypePrefix)
  then Some (errorf CodeUnknown "invalid content-type: %q; expecting %q"
               [responseContentType;
                connectUnaryContentTypePrefix +:+ requestCodecName])
  else
    let responseCodecName :=
      connectCodecForContentType StreamTypeUnary responseContentType in
    if String.eqb responseCodecName requestCodecName then None
    else if (String.eqb responseCodecName codecNameJSON
             && String.eqb requestCodecName codecNameJSONCharsetUTF8)
            || (String.eqb responseCodecName codecNameJSONCharsetUTF8
                && String.eqb requestCodecName codecNameJSON)
    then None
    else Some (errorf CodeInternal "invalid content-type: %q; expecting %q"
                 [responseContentType;
                  connectUnaryContentTypePrefix +:+ requestCodecName]).

End ConnectWire.

(** ** Options (option.go) *)

Section Options.
Context {T : GoTypes}.

(** The [Interceptor] interface (declared outside the sources): three
    wrappers, one per kind of call. *)
Record Interceptor : Type := mkInterceptor {
  WrapUnary : UnaryFunc → UnaryFunc;
  WrapStreamingClient : StreamingClientFunc → StreamingClientFunc;
  WrapStreamingHandler : StreamingHandlerFunc → StreamingHandlerFunc
}.

(** One layer of the onion: a nil entry has no wrapper to call. *)
Definition layer {F : Type} (wrap : Interceptor → F → F)
    (i : option Interceptor) (next : F) : F :=
  match i with
  | Some i => wrap i next
  | None => next
  end.

(** Modelled from the spec: [newChain] (interceptor.go is not among the
    sources) composes interceptors into one by concatenation; the first
    interceptor supplied is the outermost layer, for unary calls and,
    symmetrically, for both stream wrappers. *)
Definition newChain (interceptors : list (option Interceptor)) : Interceptor :=
  {| WrapUnary := fun next =>
       foldr (layer WrapUnary) next interceptors;
     WrapStreamingClient := fun next =>
       foldr (layer WrapStreamingClient) next interceptors;
     WrapStreamingHandler := fun next =>
       foldr (layer WrapStreamingHandler) next interceptors |}.

(** [protocolGRPC], the one protocol the options of the sources name. *)
Inductive protocol : Type := protocolGRPC.

(** Modelled from the spec: the config structs (declared outside the
    sources), with the fields the options and the error writer of the
    sources read or write. *)
Record clientConfig : Type := mkClientConfig {
  cProtocol : option protocol;
  cSchema : option anyValue;
  cCodec : option Codec;
  cReadMaxBytes : Z;
  cSendMaxBytes : Z;
  cIdempotencyLevel : Z;
  cInterceptor : option Interceptor
}.

Record handlerConfig : Type := mkHandlerConfig {
  hSchema : option anyValue;
  hCodecs : gmap string Codec;
  hReadMaxBytes : Z;
  hSendMaxBytes : Z;
  hIdempotencyLevel : Z;
  hInterceptor : option Interceptor;
  hRequireConnectProtocolHeader : bool;
  hProcedure : string;
  hStreamType : StreamType
}.

(** The [ClientOption] and [HandlerOption] interfaces; an [Option]
    implements both.  A config is passed by pointer and mutated: the
    embedding returns the config after the call. *)
Record Option : Type := mkOption {
  applyToClient : clientConfig → clientConfig;
  applyToHandler : handlerConfig → handlerConfig
}.

(** *** [codecOption] *)

Definition codecOption_applyToClient (oCodec : option Codec)
    (config : clientConfig) : clientConfig :=
  match oCodec with
  | None => config
  | Some codec =>
      if String.eqb (Name codec) "" then config
      else {| cProtocol := cProtocol config; cSchema := cSchema config;
              cCodec := Some codec;
              cReadMaxBytes := cReadMaxBytes config;
              cSendMaxBytes := cSendMaxBytes config;
              cIdempotencyLevel := cIdempotencyLevel config;
              cInterceptor := cInterceptor config |}
  end.

Definition codecOption_applyToHandler (oCodec : option Codec)
    (config : handlerConfig) : handlerConfig :=
  match oCodec with
  | None => config
  | Some codec =>
      if String.eqb (Name codec) "" then config
      else {| hSchema := hSchema config;
              hCodecs := <[Name codec := codec]> (hCodecs config);
              hReadMaxBytes := hReadMaxBytes config;
              hSendMaxBytes := hSendMaxBytes config;
              hIdempotencyLevel := hIdempotencyLevel config;
              hInterceptor := hInterceptor config;
              hRequireConnectProtocolHeader := hRequireConnectProtocolHeader config;
              hProcedure := hProcedure config;
              hStreamType := hStreamType config |}
  end.

Definition WithCodec (codec : option Codec) : Option :=
  {| applyToClient := codecOption_applyToClient codec;
     applyToHandler := codecOption_applyToHandler codec |}.

(** *** [interceptorsOption] *)

Definition chainWith (oInterceptors : list (option Interceptor))
    (current : option Interceptor) : option Interceptor :=
  if (length oInterceptors =? 0)%nat then current
  else
    match current with
    | None =>
        if (length oInterceptors =? 1)%nat
        then mjoin (head oInterceptors)
        else Some (newChain oInterceptors)
    | Some _ => Some (newChain ([current] ++ oInterceptors))
    end.

Definition interceptorsOption_applyToClient
    (oInterceptors : list (option Interceptor)) (config : clientConfig)
  : clientConfig :=
  {| cProtocol := cProtocol config; cSchema := cSchema config;
     cCodec := cCodec config;
     cReadMaxBytes := cReadMaxBytes config;
     cSendMaxBytes := cSendMaxBytes config;
     cIdempotencyLevel := cIdempotencyLevel config;
     cInterceptor := chainWith oInterceptors (cInterceptor config) |}.

Definition interceptorsOption_applyToHandler
    (oInterceptors : list (option Interceptor)) (config : handlerConfig)
  : handlerConfig :=
  {| hSchema := hSchema config;
     hCodecs := hCodecs config;
     hReadMaxBytes := hReadMaxBytes config;
     hSendMaxBytes := hSendMaxBytes config;
     hIdempotencyLevel := hIdempotencyLevel config;
     hInterceptor := chainWith oInterceptors (hInterceptor config);
     hRequireConnectProtocolHeader := hRequireConnectProtocolHeader config;
     hProcedure := hProcedure config;
     hStreamType := hStreamType config |}.

Definition WithInterceptors (interceptors : list (option Interceptor)) : Option :=
  {| applyToClient := interceptorsOption_applyToClient interceptors;
     applyToHandler := interceptorsOption_applyToHandler interceptors |}.

(** The wrapping a config's interceptor field stands for: a nil
    interceptor wraps nothing. *)
Definition wrapUnaryOf (i : option Interceptor) : UnaryFunc → UnaryFunc :=
  layer WrapUnary i.
Definition wrapStreamingClientOf (i : option Interceptor)
  : StreamingClientFunc → StreamingClientFunc :=
  layer WrapStreamingClient i.
Definition wrapStreamingHandlerOf (i : option Interceptor)
  : StreamingHandlerFunc → StreamingHandlerFunc :=
  layer WrapStreamingHandler i.

(** Two interceptor fields wrap every call the same way. *)
Definition sameWrapping (i j : option Interceptor) : Prop :=
  (∀ next, wrapUnaryOf i next = wrapUnaryOf j next) ∧
  (∀ next, wrapStreamingClientOf i next = wrapStreamingClientOf j next) ∧
  (∀ next, wrapStreamingHandlerOf i next = wrapStreamingHandlerOf j next).

(** Two client configs agree on every field, the interceptor fields up
    to the wrapping they stand for. *)
Definition sameClientConfig (x y : clientConfig) : Prop :=
  cProtocol x = cProtocol y ∧ cSchema x = cSchema y ∧ cCodec x = cCodec y ∧
  cReadMaxBytes x = cReadMaxBytes y ∧ cSendMaxBytes x = cSendMaxBytes y ∧
  cIdempotencyLevel x = cIdempotencyLevel y ∧
  sameWrapping (cInterceptor x) (cInterceptor y).

Definition sameHandlerConfig (x y : handlerConfig) : Prop :=
  hSchema x = hSchema y ∧ hCodecs x = hCodecs y ∧
  hReadMaxBytes x = hReadMaxBytes y ∧ hSendMaxBytes x = hSendMaxBytes y ∧
  hIdempotencyLevel x = hIdempotencyLevel y ∧
  hRequireConnectProtocolHeader x = hRequireConnectProtocolHeader y ∧
  hProcedure x = hProcedure y ∧ hStreamType x = hStreamType y ∧
  sameWrapping (hInterceptor x) (hInterceptor y).

End Options.

(** ** HTTP headers and the response writer *)

(** Modelled from the spec: header names of the external interface and
    the gRPC media types (declared outside the sources): the default gRPC
    media type [application/grpc] and its codec-prefixed form, as in
    [application/grpc+unknowncodec]. *)
Definition headerContentType : string := "Content-Type".
Definition headerTrailer : string := "Trailer".
Definition grpcContentTypeDefault : string := "application/grpc".
Definition grpcContentTypePrefix : string := grpcContentTypeDefault +:+ "+".

(** Modelled from the spec: the header helpers (header.go is not among
    the sources) work on keys already in canonical form: get returns the
    first value of the key or the empty string, set replaces the values
    of the key by one value, merge appends the values of every key of
    [from] to those of [into]. *)
Definition getHeaderCanonical (h : http.Header) (key : string) : string :=
  match h !! key with
  | Some (v :: _) => v
  | _ => ""
  end.

Definition setHeaderCanonical (h : http.Header) (key value : string) : http.Header :=
  <[key := [value]]> h.

Definition mergeHeaders (into from : http.Header) : http.Header :=
  union_with (fun old new => Some (old ++ new)) into from.

(** A call on the [http.ResponseWriter] that reaches the connection:
    [WriteHeader] sends the status line with the header map as it is at
    that moment, [Write] sends body bytes. *)
Inductive responseCall : Type :=
| CallWriteHeader (statusCode : Z) (sent : http.Header)
| CallWrite (body : list byte).

(** An [http.ResponseWriter]: its header map and the calls made so far.
    Entries put in the header map after [WriteHeader], under keys
    announced in [Trailer], are sent as trailers. *)
Record ResponseWriter : Type := mkResponseWriter {
  rwHeader : http.Header;
  rwCalls : list responseCall
}.

Definition withHeader (response : ResponseWriter) (h : http.Header) : ResponseWriter :=
  {| rwHeader := h; rwCalls := rwCalls response |}.

Definition WriteHeader (response : ResponseWriter) (statusCode : Z) : ResponseWriter :=
  {| rwHeader := rwHeader response;
     rwCalls := rwCalls response ++ [CallWriteHeader statusCode (rwHeader response)] |}.

(** The fields of [http.Request] the error writer reads. *)
Record Request : Type := mkRequest {
  Method : string;
  Header : http.Header
}.

(** ** Error writer *)

Section ErrorWriterModel.
Context {T : GoTypes} {L : GoLibraries} {P : PackageHelpers}.

(** [type protocolType uint8] with its two constants. *)
Inductive protocolType : Type :=
| unknownProtocol
| grpcProtocol.

#[global] Instance protocolType_eq_dec : EqDecision protocolType.
Proof. solve_decision. Defined.

(** The buffer pool is held and never used by the code below. *)
Record bufferPool : Type := mkBufferPool {}.

Record ErrorWriter : Type := mkErrorWriter {
  ewBufferPool : option bufferPool;
  protobuf : option Codec;
  requireConnectProtocolHeader : bool
}.

Definition requestContentType (request : Request) : string :=
  canonicalizeContentType (getHeaderCanonical (Header request) headerContentType).

Definition classifyRequest (w : ErrorWriter) (request : Request) : protocolType :=
  let ctype := requestContentType request in
  let isPost := String.eqb (Method request) http.MethodPost in
  if isPost && (String.eqb ctype grpcContentTypeDefault
                || strings.HasPrefix ctype grpcContentTypePrefix)
  then grpcProtocol
  else unknownProtocol.

Definition IsSupported (w : ErrorWriter) (request : Request) : bool :=
  bool_decide (classifyRequest w request ≠ unknownProtocol).

Definition writeGRPC (w : ErrorWriter) (response : ResponseWriter)
    (err : option errorValue) : ResponseWriter * option error :=
  let trailers := grpcErrorToTrailer ∅ (protobuf w) err in
  let keys := rangeOrder trailers in
  let response :=
    withHeader response
      (setHeaderCanonical (rwHeader response) headerTrailer
         (strings.Join keys ",")) in
  let response := WriteHeader response http.StatusOK in
  let response :=
    withHeader response (mergeHeaders (rwHeader response) trailers) in
  (response, None).

Definition Write (w : ErrorWriter) (response : ResponseWriter)
    (request : Request) (err : option errorValue)
  : ResponseWriter * option error :=
  let ctype := requestContentType request in
  match classifyRequest w request with
  | grpcProtocol =>
      let response :=
        withHeader response
          (setHeaderCanonical (rwHeader response) headerContentType ctype) in
      writeGRPC w response err
  | unknownProtocol => (response, None)
  end.

(** What the specification asks of a gRPC request: the method is POST
    and the canonicalized Content-Type is the default gRPC media type or
    starts with the codec-prefixed one. *)
Definition looksLikeGRPC (request : Request) : Prop :=
  Method request = http.MethodPost ∧
  (requestContentType request = grpcContentTypeDefault ∨
   strings.HasPrefix (requestContentType request) grpcContentTypePrefix = true).

End ErrorWriterModel.

(** ** Connect protocol: the rest of protocol_connect.go *)

(** Two codec names the unary validation takes for the same codec. *)
Definition sameCodec (responseCodecName requestCodecName : string) : Prop :=
  responseCodecName = requestCodecName ∨
  (responseCodecName = codecNameJSON ∧ requestCodecName = codecNameJSONCharsetUTF8) ∨
  (responseCodecName = codecNameJSONCharsetUTF8 ∧ requestCodecName = codecNameJSON).

(** Constants of protocol_connect.go. *)
Definition connectHeaderProtocolVersion : string := "Connect-Protocol-Version".
Definition connectProtocolVersion : string := "1".
Definition connectUnaryConnectQueryParameter : string := "connect".
Definition connectUnaryConnectQueryValue : string := "v" +:+ connectProtocolVersion.
Definition connectFlagEnvelopeEndStream : Z := 2.

(** [url.Values.Get]: the first value of the key, or the empty string. *)
Definition Values_Get (values : gmap string (list string)) (key : string) : string :=
  match values !! key with
  | Some (v :: _) => v
  | _ => ""
  end.

(** What [connectCheckProtocolVersion] reads of an [http.Request]: the
    method and the header, and the parsed query of its URL. *)
Record RequestURL : Type := mkRequestURL {
  urlRequest : Request;
  urlQuery : gmap string (list string)
}.

(** Methods of [Error] and functions on [error] values that
    [newConnectWireError] calls and that are declared outside the
    sources. *)
Class ErrorMethods {T : GoTypes} : Type := {
  (** the package function [asError(err)]: the [*Error] found in the
      chain of [err], if any *)
  package_asError : errorValue → option Error;
  (** [(e *Error) Message()] *)
  Error_Message : Error → string;
  (** [err.Error()] *)
  error_Error : errorValue → string
}.

(** The fields [json.Unmarshal] fills in a [connectEndStreamMessage],
    the ["error"] member still as raw bytes: [encoding/json] allocates a
    [connectWireError] and hands the bytes to its [UnmarshalJSON]; the
    pointer stays nil when the member is absent or [null]. *)
Record endStreamFields : Type := mkEndStreamFields {
  fieldError : option (list byte);
  fieldMetadata : http.Header
}.

(** What the streaming unmarshaler calls outside the sources. *)
Class StreamLibraries : Type := {
  (** [http.CanonicalHeaderKey] *)
  http_CanonicalHeaderKey : string → string;
  (** [json.Unmarshal(data, &end)] up to the decoding of ["error"] *)
  json_Unmarshal_endStream : list byte → result endStreamFields
}.

Section ConnectRest.
Context {T : GoTypes} {L : GoLibraries} {P : PackageHelpers}
        {M : ErrorMethods} {SL : StreamLibraries}.

Definition connectValidateStreamResponseContentType
    (requestCodecName : string) (streamType : StreamType)
    (responseContentType : string) : option Error :=
  if negb (strings.HasPrefix responseContentType connectStreamingContentTypePrefix)
  then Some (errorf CodeUnknown "invalid content-type: %q; expecting %q"
               [responseContentType;
                connectStreamingContentTypePrefix +:+ requestCodecName])
  else
    let responseCodecName :=
      connectCodecForContentType streamType responseContentType in
    if negb (String.eqb responseCodecName requestCodecName)
    then Some (errorf CodeInternal "invalid content-type: %q; expecting %q"
                 [responseContentType;
                  connectStreamingContentTypePrefix +:+ requestCodecName])
    else None.

Definition connectCheckProtocolVersion (request : RequestURL) (required : bool)
  : option Error :=
  let method := Method (urlRequest request) in
  if String.eqb method http.MethodGet then
    let version := Values_Get (urlQuery request) connectUnaryConnectQueryParameter in
    if String.eqb version "" && required then
      Some (errorf CodeInvalidArgument
              "missing required query parameter: set %s to %q"
              [connectUnaryConnectQueryParameter; connectUnaryConnectQueryValue])
    else if negb (String.eqb version "")
            && negb (String.eqb version connectUnaryConnectQueryValue) then
      Some (errorf CodeInvalidArgument "%s must be %q: got %q"
              [connectUnaryConnectQueryParameter; connectUnaryConnectQueryValue;
               version])
    else None
  else if String.eqb method http.MethodPost then
    let version :=
      getHeaderCanonical (Header (urlRequest request)) connectHeaderProtocolVersion in
    if String.eqb version "" && required then
      Some (errorf CodeInvalidArgument "missing required header: set %s to %q"
              [connectHeaderProtocolVersion; connectProtocolVersion])
    else if negb (String.eqb version "")
            && negb (String.eqb version connectProtocolVersion) then
      Some (errorf CodeInvalidArgument "%s must be %q: got %q"
              [connectHeaderProtocolVersion; connectProtocolVersion; version])
    else None
  else Some (errorf CodeInvalidArgument "unsupported method: %q" [method]).

(** Modelled from the spec: [Code()] of an [Error] (declared outside the
    sources) reads its code. *)
Definition Error_Code (e : Error) : Code := code e.

Definition newConnectWireError (failure : errorValue) : connectWireError :=
  let wire := {| Code_ := CodeUnknown; Message := error_Error failure;
                 Details := [] |} in
  match package_asError failure with
  | Some connectErr =>
      {| Code_ := Error_Code connectErr;
         Message := Error_Message connectErr;
         Details := if (0 <? length (details connectErr))%nat
                    then details connectErr
                    else Details wire |}
  | None => wire
  end.

(** *** The streaming unmarshaler *)

(** Modelled from the spec: an envelope (envelope.go is not among the
    sources) is a flag byte and a payload; the flag bits are independent
    booleans, and [IsSet] tests the bits of a flag. *)
Record envelope : Type := mkEnvelope {
  Data : list byte;
  Flags : Z
}.

Definition IsSet (env : envelope) (flag : Z) : bool :=
  Z.land (Flags env) flag =? flag.

(** Modelled from the spec: [delHeaderCanonical] (header.go) removes a
    key. *)
Definition delHeaderCanonical (h : http.Header) (key : string) : http.Header :=
  delete key h.

(** The body of the loop over [end.Trailer], for the key [name]: the
    loop sees the values the key has when it is reached, and an entry
    removed before it is reached is not produced. *)
Definition canonicalizeEntry (h : http.Header) (name : string) : http.Header :=
  match h !! name with
  | None => h
  | Some value =>
      let canonical := http_CanonicalHeaderKey name in
      if decide (name ≠ canonical) then
        let h := delHeaderCanonical h name in
        <[canonical := default [] (h !! canonical) ++ value]> h
      else h
  end.

(** The loop: the entries of the map, in the order [range] visits
    them.  Entries created while it runs have canonical keys. *)
Definition canonicalizeTrailer (h : http.Header) : http.Header :=
  foldl canonicalizeEntry h (rangeOrder h).

(** [connectEndStreamMessage] *)
Record connectEndStreamMessage : Type := mkConnectEndStreamMessage {
  endError : option connectWireError;
  endTrailer : http.Header
}.

(** [json.Unmarshal(data.Bytes(), &end)] for a zero [end]. *)
Definition unmarshalEndStream (data : list byte) : result connectEndStreamMessage :=
  fields ← json_Unmarshal_endStream data;
  wire ← match fieldError fields with
         | None => Ok None
         | Some raw => e ← wireError_UnmarshalJSON zeroWireError raw; Ok (Some e)
         end;
  Ok {| endError := wire; endTrailer := fieldMetadata fields |}.

(** What the embedded [envelopeReader.Unmarshal] (outside the sources)
    came back with: a message, an error that is not
    [errSpecialEnvelope], or [errSpecialEnvelope] with the envelope left
    in [u.last]. *)
Inductive readOutcome : Type :=
| ReadMessage
| ReadFailed (e : Error)
| ReadSpecial (env : envelope).

(** What [Unmarshal] returns: nil, an error, or [errSpecialEnvelope]. *)
Inductive unmarshalReturn : Type :=
| ReturnNil
| ReturnError (e : Error)
| ReturnSpecialEnvelope.

(** The fields of [connectStreamingUnmarshaler] beside the embedded
    reader. *)
Record connectStreamingUnmarshaler : Type := mkConnectStreamingUnmarshaler {
  endStreamErr : option Error;
  trailer : http.Header
}.

(** [connectStreamingUnmarshaler.Unmarshal], after the call of the
    embedded reader; the buffer handed back to the pool is left out. *)
Definition connectStreamingUnmarshaler_Unmarshal
    (u : connectStreamingUnmarshaler) (outcome : readOutcome)
  : connectStreamingUnmarshaler * unmarshalReturn :=
  match outcome with
  | ReadMessage => (u, ReturnNil)
  | ReadFailed e => (u, ReturnError e)
  | ReadSpecial env =>
      if negb (IsSet env connectFlagEnvelopeEndStream) then
        (u, ReturnError
              (errorf CodeInternal "protocol error: invalid envelope flags %d"
                 [pretty (Flags env)]))
      else
        match unmarshalEndStream (Data env) with
        | Err e =>
            (u, ReturnError
                  (NewError CodeInternal
                     (fmt_Errorf_w "unmarshal end stream message: %w" [] e)))
        | Ok endMessage =>
            ({| endStreamErr := snd (asError (endError endMessage));
                trailer := canonicalizeTrailer (endTrailer endMessage) |},
             ReturnSpecialEnvelope)
        end
  end.

Definition Trailer (u : connectStreamingUnmarshaler) : http.Header := trailer u.
Definition EndStreamError (u : connectStreamingUnmarshaler) : option Error :=
  endStreamErr u.

End ConnectRest.

(** ** The rest of the options (option.go) *)

Section MoreOptions.
Context {T : GoTypes}.

(** The [ClientOption] and [HandlerOption] interfaces have one method
    each. *)
Definition ClientOption : Type := clientConfig → clientConfig.
Definition HandlerOption : Type := handlerConfig → handlerConfig.

(** [clientOptionsOption], [handlerOptionsOption] and [optionsOption]:
    the options are applied in order. *)
Definition WithClientOptions (options : list ClientOption) : ClientOption :=
  fun config => foldl (fun config option => option config) config options.

Definition WithHandlerOptions (options : list HandlerOption) : HandlerOption :=
  fun config => foldl (fun config option => option config) config options.

Definition WithOptions (options : list Option) : Option :=
  {| applyToClient := fun config =>
       foldl (fun config option => applyToClient option config) config options;
     applyToHandler := fun config =>
       foldl (fun config option => applyToHandler option config) config options |}.

(** [readMaxBytesOption] *)
Definition WithReadMaxBytes (maxBytes : Z) : Option :=
  {| applyToClient := fun config =>
       {| cProtocol := cProtocol config; cSchema := cSchema config;
          cCodec := cCodec config; cReadMaxBytes := maxBytes;
          cSendMaxBytes := cSendMaxBytes config;
          cIdempotencyLevel := cIdempotencyLevel config;
          cInterceptor := cInterceptor config |};
     applyToHandler := fun config =>
       {| hSchema := hSchema config; hCodecs := hCodecs config;
          hReadMaxBytes := maxBytes;
          hSendMaxBytes := hSendMaxBytes config;
          hIdempotencyLevel := hIdempotencyLevel config;
          hInterceptor := hInterceptor config;
          hRequireConnectProtocolHeader := hRequireConnectProtocolHeader config;
          hProcedure := hProcedure config;
          hStreamType := hStreamType config |} |}.

(** Modelled from the spec: a [Spec] (declared outside the sources) is
    the procedure name, the stream type, the schema handle and the
    idempotency level, and [newSpec] reads them off the config. *)
Record Spec : Type := mkSpec {
  Procedure : string;
  specStreamType : StreamType;
  specSchema : option anyValue;
  specIdempotencyLevel : Z
}.

Definition newSpec (config : handlerConfig) : Spec :=
  {| Procedure := hProcedure config;
     specStreamType := hStreamType config;
     specSchema := hSchema config;
     specIdempotencyLevel := hIdempotencyLevel config |}.

(** [conditionalHandlerOptions] *)
Definition WithConditionalHandlerOptions
    (conditional : Spec → list HandlerOption) : HandlerOption :=
  fun config =>
    let spec := newSpec config in
    if String.eqb (Procedure spec) "" then config
    else foldl (fun config option => option config) config (conditional spec).

End MoreOptions.

(** ** A reference instance of the parameters

    Concrete, executable stand-ins for what the embedding takes as
    parameters, so that the model runs on concrete inputs: a decoder for
    the JSON fragment the wire format uses (objects, arrays, strings
    without escapes, [null], [true], [false]), base64, and plain versions
    of the package helpers.  No property below depends on them except the
    closed examples that evaluate the model. *)

Module Reference.

(** *** Text helpers *)

Definition quote : ascii := "034"%char.
Definition backslash : ascii := "092"%char.

(** JSON text written with single quotes for readability. *)
Fixpoint jsonText (s : string) : string :=
  match s with
  | EmptyString => EmptyString
  | String c s' =>
      String (if Ascii.eqb c "'"%char then quote else c) (jsonText s')
  end.

Definition jsonBytes (s : string) : list byte :=
  String.list_byte_of_string (jsonText s).

Definition isSpace (c : ascii) : bool :=
  Ascii.eqb c " "%char || Ascii.eqb c "009"%char
  || Ascii.eqb c "010"%char || Ascii.eqb c "013"%char.

Fixpoint skipSpace (s : string) : string :=
  match s with
  | String c s' => if isSpace c then skipSpace s' else s
  | EmptyString => s
  end.

(** [s] without the leading [pre], when it starts with it. *)
Definition dropPrefix (pre s : string) : option string :=
  if String.prefix pre s
  then Some (String.substring (String.length pre)
               (String.length s - String.length pre) s)
  else None.

(** The text consumed between [s] and its suffix [rest]. *)
Definition consumed (s rest : string) : string :=
  String.substring 0 (String.length s - String.length rest) s.

(** *** JSON *)

(** The body of a string literal, after its opening quote: the content
    and the text after the closing quote. *)
Fixpoint scanString (s : string) : option (string * string) :=
  match s with
  | EmptyString => None
  | String c s' =>
      if Ascii.eqb c quote then Some (EmptyString, s')
      else if Ascii.eqb c backslash then None
      else '(body, rest) ← scanString s'; Some (String c body, rest)
  end.

#[local] Unset Elimination Schemes.
(** A JSON value; array elements come with their raw text. *)
Inductive json : Type :=
| JNull
| JBool (b : bool)
| JString (s : string)
| JArray (items : list (string * json))
| JObject (members : list (string * json)).
#[local] Set Elimination Schemes.

Fixpoint parseValue (fuel : nat) (s : string) : option (json * string) :=
  match fuel with
  | O => None
  | S fuel =>
      match s with
      | EmptyString => None
      | String c s' =>
          if Ascii.eqb c quote then
            '(body, rest) ← scanString s'; Some (JString body, rest)
          else if Ascii.eqb c "["%char then
            match dropPrefix "]" (skipSpace s') with
            | Some rest => Some (JArray [], rest)
            | None =>
                '(items, rest) ← parseItems fuel (skipSpace s');
                Some (JArray items, rest)
            end
          else if Ascii.eqb c "{"%char then
            match dropPrefix "}" (skipSpace s') with
            | Some rest => Some (JObject [], rest)
            | None =>
                '(members, rest) ← parseMembers fuel (skipSpace s');
                Some (JObject members, rest)
            end
          else
            match dropPrefix "null" s, dropPrefix "true" s, dropPrefix "false" s with
            | Some rest, _, _ => Some (JNull, rest)
            | _, Some rest, _ => Some (JBool true, rest)
            | _, _, Some rest => Some (JBool false, rest)
            | _, _, _ => None
            end
      end
  end
with parseItems (fuel : nat) (s : string) : option (list (string * json) * string) :=
  match fuel with
  | O => None
  | S fuel =>
      '(v, rest) ← parseValue fuel s;
      let item := (consumed s rest, v) in
      match dropPrefix "," (skipSpace rest), dropPrefix "]" (skipSpace rest) with
      | Some rest', _ =>
          '(items, rest'') ← parseItems fuel (skipSpace rest');
          Some (item :: items, rest'')
      | None, Some rest' => Some ([item], rest')
      | None, None => None
      end
  end
with parseMembers (fuel : nat) (s : string) : option (list (string * json) * string) :=
  match fuel with
  | O => None
  | S fuel =>
      afterQuote ← dropPrefix (String quote EmptyString) s;
      '(key, rest) ← scanString afterQuote;
      afterColon ← dropPrefix ":" (skipSpace rest);
      '(v, rest) ← parseValue fuel (skipSpace afterColon);
      match dropPrefix "," (skipSpace rest), dropPrefix "}" (skipSpace rest) with
      | Some rest', _ =>
          '(members, rest'') ← parseMembers fuel (skipSpace rest');
          Some ((key, v) :: members, rest'')
      | None, Some rest' => Some ([(key, v)], rest')
      | None, None => None
      end
  end.

(** A whole document: one value, white space around it allowed. *)
Definition parseDocument (data : list byte) : result json :=
  let s := String.string_of_list_byte data in
  match parseValue (S (String.length s)) (skipSpace s) with
  | Some (v, rest) =>
      if String.eqb (skipSpace rest) "" then Ok v
      else Err (foreign "json" "invalid character after top-level value")
  | None => Err (foreign "json" "unexpected end of JSON input")
  end.

(** The member of an object a struct field binds to: the last one with
    the field's name. *)
Definition member (name : string) (members : list (string * json)) : option json :=
  snd <$> last (filter (fun m => fst m = name) members).

(** A struct field of type [string]: absent and [null] leave the zero
    value. *)
Definition stringField (name : string) (members : list (string * json))
  : result string :=
  match member name members with
  | None | Some JNull => Ok ""
  | Some (JString s) => Ok s
  | Some _ => Err (foreign "json" ("cannot unmarshal into field " +:+ name))
  end.

(** A struct field holding a slice of pointers: each element is raw
    text, or nil for [null]. *)
Definition sliceField (name : string) (members : list (string * json))
  : result (list (option (list byte))) :=
  match member name members with
  | None | Some JNull => Ok []
  | Some (JArray items) =>
      Ok ((fun item : string * json =>
            match snd item with
            | JNull => None
            | _ => Some (String.list_byte_of_string (fst item))
            end) <$> items)
  | Some _ => Err (foreign "json" ("cannot unmarshal into field " +:+ name))
  end.

Definition membersOf (v : json) : result (list (string * json)) :=
  match v with
  | JObject members => Ok members
  | JNull => Ok []
  | _ => Err (foreign "json" "cannot unmarshal into Go struct")
  end.

Definition decodeDetail (data : list byte) : result (string * string) :=
  v ← parseDocument data;
  members ← membersOf v;
  ty ← stringField "type" members;
  value ← stringField "value" members;
  Ok (ty, value).

Definition decodeWireError (data : list byte) : result wireErrorFields :=
  v ← parseDocument data;
  members ← membersOf v;
  c ← stringField "code" members;
  message ← stringField "message" members;
  rawDetails ← sliceField "details" members;
  Ok {| fieldCode := c; fieldMessage := message; fieldDetails := rawDetails |}.

(** Text that needs no escaping is marshalled as it is. *)
Definition encodeDetail (ty value : string) (debug : option (list byte))
  : result (list byte) :=
  let q := String quote EmptyString in
  let debugText :=
    match debug with
    | Some raw => "," +:+ q +:+ "debug" +:+ q +:+ ":" +:+ String.string_of_list_byte raw
    | None => ""
    end in
  Ok (String.list_byte_of_string
        ("{" +:+ q +:+ "type" +:+ q +:+ ":" +:+ q +:+ ty +:+ q +:+ ","
             +:+ q +:+ "value" +:+ q +:+ ":" +:+ q +:+ value +:+ q
             +:+ debugText +:+ "}")).

(** *** base64 *)

Definition alphabet : string :=
  "ABCDEFGHIJKLMNOPQRSTUVWXYZabcdefghijklmnopqrstuvwxyz0123456789+/".

Definition sextetOf (c : ascii) : option N :=
  N.of_nat <$> String.index 0 (String c EmptyString) alphabet.

Definition charOf (sextet : N) : ascii :=
  default "="%char (String.get (N.to_nat sextet) alphabet).

Definition byteOf (n : N) : byte := default x00 (Byte.of_N (n mod 256)).

Fixpoint decodeGroups (sextets : list N) : option (list byte) :=
  match sextets with
  | [] => Some []
  | [_] => None
  | [a; b] => Some [byteOf ((a * 64 + b) / 16)]
  | [a; b; c] =>
      let n := ((a * 64 + b) * 64 + c) / 4 in
      Some [byteOf (n / 256); byteOf n]
  | a :: b :: c :: d :: rest =>
      let n := ((a * 64 + b) * 64 + c) * 64 + d in
      tail ← decodeGroups rest;
      Some (byteOf (n / 65536) :: byteOf (n / 256) :: byteOf n :: tail)
  end%N.

Fixpoint encodeGroups (bytes : list N) : list N :=
  match bytes with
  | [] => []
  | [a] => [a / 4; (a * 16) mod 64]
  | [a; b] =>
      let n := a * 256 + b in
      [n / 1024; (n / 16) mod 64; (n * 4) mod 64]
  | a :: b :: c :: rest =>
      let n := (a * 256 + b) * 256 + c in
      [n / 262144; (n / 4096) mod 64; (n / 64) mod 64; n mod 64]
        ++ encodeGroups rest
  end%N.

Definition encodeBase64 (data : list byte) : string :=
  String.string_of_list_ascii (charOf <$> encodeGroups (Byte.to_N <$> data)).

(** Up to two padding characters at the end are dropped. *)
Definition stripPadding (chars : list ascii) : list ascii :=
  let isPad c := Ascii.eqb c "="%char in
  match rev chars with
  | c1 :: c2 :: r =>
      if isPad c1 then (if isPad c2 then rev r else rev (c2 :: r)) else chars
  | _ => chars
  end.

(** Padded and unpadded standard base64 are both accepted. *)
Definition decodeBase64 (data : string) : result (list byte) :=
  let chars := String.list_ascii_of_string data in
  let chars :=
    if (length chars mod 4 =? 0)%nat then stripPadding chars else chars in
  match mapM sextetOf chars ≫= decodeGroups with
  | Some decoded => Ok decoded
  | None => Err (foreign "base64" "illegal base64 data")
  end.

(** *** Package helpers *)

(** The text after the last slash of a type URL. *)
Fixpoint typeName (url : string) : string :=
  match url with
  | EmptyString => EmptyString
  | String c rest =>
      if strings.Contains url "/"
      then (if Ascii.eqb c "/"%char && negb (strings.Contains rest "/")
            then rest else typeName rest)
      else url
  end.

Definition anyResolverPrefix : string := "type.googleapis.com/".

Definition codeNames : list (string * Code) :=
  [("canceled", CodeCanceled); ("unknown", CodeUnknown);
   ("invalid_argument", CodeInvalidArgument);
   ("deadline_exceeded", CodeDeadlineExceeded);
   ("not_found", CodeNotFound); ("already_exists", CodeAlreadyExists);
   ("permission_denied", CodePermissionDenied);
   ("resource_exhausted", CodeResourceExhausted);
   ("failed_precondition", CodeFailedPrecondition);
   ("aborted", CodeAborted); ("out_of_range", CodeOutOfRange);
   ("unimplemented", CodeUnimplemented); ("internal", CodeInternal);
   ("unavailable", CodeUnavailable); ("data_loss", CodeDataLoss);
   ("unauthenticated", CodeUnauthenticated)].

Definition digitOf (c : ascii) : option Z :=
  let n := Z.of_nat (nat_of_ascii c) in
  if (48 <=? n) && (n <=? 57) then Some (n - 48) else None.

(** A non-empty run of decimal digits that fits 32 bits. *)
Definition parseUint32 (s : string) : option Z :=
  match String.list_ascii_of_string s with
  | [] => None
  | chars =>
      digits ← mapM digitOf chars;
      let n := foldl (fun acc d => acc * 10 + d) 0 digits in
      if n <? 2 ^ 32 then Some n else None
  end.

(** A code by its name, or as [code_N] for a numeric code. *)
Definition codeOfText (data : list byte) : result Code :=
  let text := String.string_of_list_byte data in
  match snd <$> head (filter (fun entry => fst entry = text) codeNames) with
  | Some c => Ok c
  | None =>
      match dropPrefix "code_" text ≫= parseUint32 with
      | Some c => Ok c
      | None => Err (fmt_Errorf "invalid code %q" [text])
      end
  end.

Definition codeOfStatus (httpCode : Z) : Code :=
  if httpCode =? 400 then CodeInternal
  else if httpCode =? 401 then CodeUnauthenticated
  else if httpCode =? 403 then CodePermissionDenied
  else if httpCode =? 404 then CodeUnimplemented
  else if httpCode =? 429 then CodeUnavailable
  else if (httpCode =? 502) || (httpCode =? 503) || (httpCode =? 504)
  then CodeUnavailable
  else CodeUnknown.

Definition lowerAscii (c : ascii) : ascii :=
  let n := nat_of_ascii c in
  if (65 <=? n)%nat && (n <=? 90)%nat then ascii_of_nat (n + 32) else c.

(** Media types are compared in lower case. *)
Fixpoint lowerCase (contentType : string) : string :=
  match contentType with
  | EmptyString => EmptyString
  | String c rest => String (lowerAscii c) (lowerCase rest)
  end.

Fixpoint errorText (e : error) : string :=
  match e with
  | errors_New text => text
  | fmt_Errorf format _ => format
  | fmt_Errorf_w format _ wrapped => format +:+ ": " +:+ errorText wrapped
  | sentinel name => name
  | foreign pkg text => pkg +:+ ": " +:+ text
  end.

(** *** The instances *)

(** Calls are run on a log of hook names: a function of the reference
    instance maps the log before the call to the log after it.  No
    protobuf message exists: no descriptor is ever available. *)
Definition refTypes : GoTypes :=
  {| anyValue := string;
     protoMessage := Empty_set;
     UnaryFunc := list string → list string;
     StreamingClientFunc := list string → list string;
     StreamingHandlerFunc := list string → list string |}.

Definition refLibraries : @GoLibraries refTypes :=
  {| json_Unmarshal_detail := decodeDetail;
     json_Unmarshal_wireError := decodeWireError;
     json_Marshal_detail := encodeDetail;
     base64_RawStdEncoding_EncodeToString :=
       encodeBase64;
     Any_UnmarshalNew := fun _ =>
       Err (foreign "proto" "not found");
     protoJSONCodec_Marshal := fun msg : @protoMessage refTypes =>
       match msg with end;
     rangeOrder := fun h => (map_to_list h).*1 |}.

(** The status and the message of the error, as trailer fields. *)
Definition statusTrailer (trailer : http.Header)
    (protobuf : option (@Codec refTypes)) (failure : option (@errorValue refTypes))
  : http.Header :=
  match failure with
  | None => setHeaderCanonical trailer "Grpc-Status" "0"
  | Some (connectError e) =>
      setHeaderCanonical
        (setHeaderCanonical trailer "Grpc-Status" (pretty (code e)))
        "Grpc-Message" (errorText (err e))
  | Some (otherError e) =>
      setHeaderCanonical
        (setHeaderCanonical trailer "Grpc-Status" (pretty CodeUnknown))
        "Grpc-Message" (errorText e)
  end.

Definition refHelpers : @PackageHelpers refTypes :=
  {| DecodeBinaryHeader := decodeBase64;
     typeNameForURL := typeName;
     defaultAnyResolverPrefix := anyResolverPrefix;
     Code_UnmarshalText := codeOfText;
     httpToCode := codeOfStatus;
     canonicalizeContentType := lowerCase;
     grpcErrorToTrailer := statusTrailer |}.

(** An interceptor that records a hook before and after the call it
    wraps. *)
Definition recording (name : string) : @Interceptor refTypes :=
  let wrap (next : list string → list string) (log : list string) :=
    next (log ++ [name +:+ ":pre"]) ++ [name +:+ ":post"] in
  {| WrapUnary := wrap : @UnaryFunc refTypes → @UnaryFunc refTypes;
     WrapStreamingClient := wrap;
     WrapStreamingHandler := wrap |}.

(** The synthetic call at the centre of the onion. *)
Definition syntheticCall (log : list string) : list string := log ++ ["call"].

(** *** Example values *)

(** A codec that passes text through, under a given name. *)
Definition textCodec (name : string) : @Codec refTypes :=
  {| Name := name;
     Marshal := fun v : @anyValue refTypes => Ok (String.list_byte_of_string v);
     Unmarshal := fun data => Ok (String.string_of_list_byte data : @anyValue refTypes) |}.

Definition jsonCodec : @Codec refTypes := textCodec "json".
Definition unnamedCodec : @Codec refTypes := textCodec "".

(** A client and a handler configured with the JSON codec. *)
Definition jsonClient : @clientConfig refTypes :=
  {| cProtocol := None; cSchema := None; cCodec := Some jsonCodec;
     cReadMaxBytes := 0; cSendMaxBytes := 0; cIdempotencyLevel := 0;
     cInterceptor := None |}.

Definition jsonHandler : @handlerConfig refTypes :=
  {| hSchema := None; hCodecs := {[ "json" := jsonCodec ]};
     hReadMaxBytes := 0; hSendMaxBytes := 0; hIdempotencyLevel := 0;
     hInterceptor := None; hRequireConnectProtocolHeader := false;
     hProcedure := ""; hStreamType := StreamTypeUnary |}.

(** The wire detail of the specification's example, and the detail it
    decodes to. *)
Definition xyDocument : list byte := jsonBytes "{'type':'x/y','value':'Zm9v'}".

Definition xyDetail : @connectWireDetail refTypes :=
  {| pbAny := Some {| TypeUrl := "x/y";
                      Value := String.list_byte_of_string "foo" |};
     pbInner := None;
     wireJSON := jsonText "{'type':'x/y','value':'Zm9v'}" |}.

(** A wire error with an unrecognized code, a message and a detail. *)
Definition bogusCodeDocument : list byte :=
  jsonBytes "{'code':'bogus','message':'m','details':[{'type':'x/y','value':'Zm9v'}]}".

(** A wire error with a numeric code outside the enumeration. *)
Definition code99Document : list byte :=
  jsonBytes "{'code':'code_99','message':'later'}".

(** An error writer, a POST request with a given Content-Type, a
    response nothing was written to, and an error to report. *)
Definition refWriter : @ErrorWriter refTypes :=
  {| ewBufferPool := None; protobuf := None;
     requireConnectProtocolHeader := false |}.

Definition postRequest (contentType : string) : Request :=
  {| Method := "POST"; Header := {[ "Content-Type" := [contentType] ]} |}.

Definition freshResponse : ResponseWriter :=
  {| rwHeader := ∅; rwCalls := [] |}.

Definition boom : option (@errorValue refTypes) :=
  Some (connectError (NewError CodeInternal (errors_New "boom"))).

(** *** More parameters: error methods, header keys, end of stream *)

Definition refErrorMethods : @ErrorMethods refTypes :=
  {| package_asError := fun failure =>
       match failure with
       | connectError e => Some e
       | otherError _ => None
       end;
     Error_Message := fun e => errorText (err e);
     error_Error := fun failure =>
       match failure with
       | connectError e => errorText (err e)
       | otherError e => errorText e
       end |}.

Definition upperAscii (c : ascii) : ascii :=
  let n := nat_of_ascii c in
  if (97 <=? n)%nat && (n <=? 122)%nat then ascii_of_nat (n - 32) else c.

(** The characters of a header field name. *)
Definition isTokenChar (c : ascii) : bool :=
  let n := nat_of_ascii c in
  ((48 <=? n)%nat && (n <=? 57)%nat)
  || ((65 <=? n)%nat && (n <=? 90)%nat)
  || ((97 <=? n)%nat && (n <=? 122)%nat)
  || bool_decide (c ∈ String.list_ascii_of_string "!#$%&'*+-.^_`|~").

Fixpoint canonicalRun (upper : bool) (s : string) : string :=
  match s with
  | EmptyString => EmptyString
  | String c rest =>
      String (if upper then upperAscii c else lowerAscii c)
             (canonicalRun (Ascii.eqb c "-"%char) rest)
  end.

(** The first letter and every letter after a hyphen in upper case, the
    others in lower case; a key that is no field name is left alone. *)
Definition canonicalHeaderKey (key : string) : string :=
  if forallb isTokenChar (String.list_ascii_of_string key)
  then canonicalRun true key
  else key.

(** The members of an object, each value with its raw text. *)
Fixpoint parseMembersRaw (fuel : nat) (s : string)
  : option (list (string * (string * json)) * string) :=
  match fuel with
  | O => None
  | S fuel =>
      afterQuote ← dropPrefix (String quote EmptyString) s;
      '(key, rest) ← scanString afterQuote;
      afterColon ← dropPrefix ":" (skipSpace rest);
      let start := skipSpace afterColon in
      '(v, rest) ← parseValue fuel start;
      let entry := (key, (consumed start rest, v)) in
      match dropPrefix "," (skipSpace rest), dropPrefix "}" (skipSpace rest) with
      | Some rest', _ =>
          '(members, rest'') ← parseMembersRaw fuel (skipSpace rest');
          Some (entry :: members, rest'')
      | None, Some rest' => Some ([entry], rest')
      | None, None => None
      end
  end.

Definition parseObjectRaw (data : list byte)
  : result (list (string * (string * json))) :=
  let s := skipSpace (String.string_of_list_byte data) in
  let fuel := S (String.length s) in
  let parsed :=
    afterBrace ← dropPrefix "{" s;
    match dropPrefix "}" (skipSpace afterBrace) with
    | Some rest => Some ([], rest)
    | None => parseMembersRaw fuel (skipSpace afterBrace)
    end in
  match parsed with
  | Some (members, rest) =>
      if String.eqb (skipSpace rest) "" then Ok members
      else Err (foreign "json" "invalid character after top-level value")
  | None => Err (foreign "json" "cannot unmarshal end of stream")
  end.

(** A header value list: an array of strings. *)
Definition stringsOf (v : json) : option (list string) :=
  match v with
  | JArray items =>
      mapM (fun item : string * json =>
              match snd item with JString s => Some s | _ => None end) items
  | _ => None
  end.

Definition metadataOf (v : json) : result http.Header :=
  match v with
  | JNull => Ok ∅
  | JObject members =>
      match mapM (fun m : string * json => pair (fst m) <$> stringsOf (snd m)) members with
      | Some entries =>
          Ok (foldl (fun h entry => <[fst entry := snd entry]> h) ∅ entries)
      | None => Err (foreign "json" "cannot unmarshal into field metadata")
      end
  | _ => Err (foreign "json" "cannot unmarshal into field metadata")
  end.

Definition decodeEndStream (data : list byte) : result endStreamFields :=
  members ← parseObjectRaw data;
  let find name := snd <$> last (filter (fun m => fst m = name) members) in
  metadata ← match find "metadata" with
             | Some (_, v) => metadataOf v
             | None => Ok ∅
             end;
  Ok {| fieldError :=
          match find "error" with
          | Some (_, JNull) | None => None
          | Some (raw, _) => Some (String.list_byte_of_string raw)
          end;
        fieldMetadata := metadata |}.

Definition refStreamLibraries : StreamLibraries :=
  {| http_CanonicalHeaderKey := canonicalHeaderKey;
     json_Unmarshal_endStream := decodeEndStream |}.

(** An end-of-stream payload: an error and trailers under keys that are
    not all canonical. *)
Definition endStreamDocument : list byte :=
  jsonBytes "{'error':{'code':'not_found','message':'gone'},'metadata':{'x-trace':['1'],'X-Trace':['2'],'Grpc-Status':['5']}}".

Definition endStreamEnvelope : envelope :=
  {| Data := endStreamDocument; Flags := 2 |}.

Definition freshUnmarshaler : @connectStreamingUnmarshaler refTypes :=
  {| endStreamErr := None; trailer := ∅ |}.

(** A request with the query of its URL. *)
Definition getRequest (query : gmap string (list string)) : RequestURL :=
  {| urlRequest := {| Method := "GET"; Header := ∅ |}; urlQuery := query |}.

(** Trailers as an end-of-stream message may carry them, and a detail
    whose value is not base64. *)
Definition mixedTrailers : http.Header :=
  {[ "x-trace" := ["1"]; "X-Trace" := ["2"]; "Grpc-Status" := ["5"] ]}.

Definition badValueDocument : list byte :=
  jsonBytes "{'type':'x/y','value':'!!!'}".

(** A wire error that was used before: it holds a code already. *)
Definition usedWireError : @connectWireError refTypes :=
  {| Code_ := CodePermissionDenied; Message := "old"; Details := [] |}.

(** A handler config with a procedure name, and one more option. *)
Definition namedHandler : @handlerConfig refTypes :=
  {| hSchema := None; hCodecs := ∅;
     hReadMaxBytes := 0; hSendMaxBytes := 0; hIdempotencyLevel := 0;
     hInterceptor := None; hRequireConnectProtocolHeader := false;
     hProcedure := "/acme.v1.Service/Get"; hStreamType := StreamTypeUnary |}.

Definition largeReads (spec : @Spec refTypes) : list (@HandlerOption refTypes) :=
  [applyToHandler (WithReadMaxBytes 1048576)].

End Reference.

(** * Properties *)

(** ** Compression registry *)

Section CompressionFacts.
Import Compression.

Lemma visitName_fresh seen names name :
  name ∉ seen →
  visitName (seen, names) name = ({[name]} ∪ seen, names ++ [name]).
Proof. intros H. unfold visitName. by rewrite decide_False. Qed.

Lemma visitName_seen seen names name :
  name ∈ seen → visitName (seen, names) name = (seen, names).
Proof. intros H. unfold visitName. by rewrite decide_True. Qed.

Lemma preferredNames_abac (a b c : string) :
  a ≠ b → a ≠ c → b ≠ c → preferredNames [a; b; a; c] = [c; a; b].
Proof.
  intros Hab Hac Hbc. unfold preferredNames.
  change (rev [a; b; a; c]) with [c; a; b; a]. cbn [foldl].
  rewrite visitName_fresh by apply not_elem_of_empty.
  rewrite visitName_fresh by (set_unfold; intuition congruence).
  rewrite visitName_fresh by (set_unfold; intuition congruence).
  rewrite visitName_seen by (set_unfold; intuition congruence).
  reflexivity.
Qed.

Lemma Contains_registered (a b c n : string) :
  Contains (registryOf (registerAll [a; b; a; c])) n = true ↔
  n = a ∨ n = b ∨ n = c.
Proof.
  unfold Contains, registryOf, registerAll. simpl.
  rewrite bool_decide_eq_true.
  rewrite !lookup_insert_is_Some, lookup_empty.
  pose proof (@is_Some_None poolPtr) as Hnone.
  destruct (decide (c = n)), (decide (a = n)), (decide (b = n));
    intuition congruence.
Qed.

End CompressionFacts.

(** C1, as the registry behaves: for distinct names a, b and c, registering
    [a, b, a, c] advertises the order [c, a, b]: most recently registered
    first, every distinct name exactly once, and a name registered twice
    counts from its last registration, so [a] comes before [b].
    [Contains] is true for exactly a, b and c. *)
Theorem C1_most_recent_registration_first (a b c : string) :
  a ≠ b → a ≠ c → b ≠ c →
  let registry :=
    Compression.registryOf (Compression.registerAll [a; b; a; c]) in
  Compression.CommaSeparatedNames registry = strings.Join [c; a; b] "," ∧
  Compression.preferredNames [a; b; a; c] = [c; a; b] ∧
  NoDup (Compression.preferredNames [a; b; a; c]) ∧
  ∀ name, Compression.Contains registry name = true ↔
          name = a ∨ name = b ∨ name = c.
Proof.
  intros Hab Hac Hbc registry.
  pose proof (preferredNames_abac a b c Hab Hac Hbc) as Hnames.
  repeat split.
  - unfold registry, Compression.registryOf, Compression.CommaSeparatedNames.
    cbn [Compression.registerAll Compression.commaSeparatedNames
         Compression.newReadOnlyCompressionPools].
    change (Compression.CompressionNames _) with [a; b; a; c].
    by rewrite Hnames.
  - exact Hnames.
  - rewrite Hnames. repeat constructor; set_unfold; intuition congruence.
  - apply Contains_registered.
  - apply Contains_registered.
Qed.

Lemma C1_most_recent_registration_first_witness :
  let registry :=
    Compression.registryOf
      (Compression.registerAll ["gzip"; "br"; "gzip"; "zstd"]) in
  Compression.CommaSeparatedNames registry = "zstd,gzip,br" ∧
  Compression.preferredNames ["gzip"; "br"; "gzip"; "zstd"]
    = ["zstd"; "gzip"; "br"] ∧
  NoDup (Compression.preferredNames ["gzip"; "br"; "gzip"; "zstd"]) ∧
  ∀ name, Compression.Contains registry name = true ↔
          name = "gzip" ∨ name = "br" ∨ name = "zstd".
Proof.
  apply (C1_most_recent_registration_first "gzip" "br" "zstd");
    discriminate.
Defined.

(** C1 as stated fails: after registering [gzip, br, gzip, zstd] the
    advertised names are not [zstd, br, gzip]. *)
Lemma C1_advertised_order_counterexample :
  Compression.CommaSeparatedNames
    (Compression.registryOf
       (Compression.registerAll ["gzip"; "br"; "gzip"; "zstd"]))
  ≠ strings.Join ["zstd"; "br"; "gzip"] ",".
Proof.
  unfold Compression.registryOf, Compression.CommaSeparatedNames.
  cbn [Compression.registerAll Compression.commaSeparatedNames
       Compression.newReadOnlyCompressionPools].
  change (Compression.CompressionNames _) with ["gzip"; "br"; "gzip"; "zstd"].
  rewrite preferredNames_abac by discriminate.
  discriminate.
Qed.

(** ** Code to HTTP status *)

(** C5: [connectCodeToHTTP] is defined on every [Code] value and answers
    with an HTTP error status; InvalidArgument maps to 400, NotFound to
    404, ResourceExhausted to 429, Unimplemented to 501, Unavailable to
    503, Unauthenticated to 401, Canceled to 499, and Unknown as well as
    every value outside the enumeration to 500. *)
Theorem C5_connectCodeToHTTP_total_table :
  connectCodeToHTTP CodeInvalidArgument = 400 ∧
  connectCodeToHTTP CodeNotFound = 404 ∧
  connectCodeToHTTP CodeResourceExhausted = 429 ∧
  connectCodeToHTTP CodeUnimplemented = 501 ∧
  connectCodeToHTTP CodeUnavailable = 503 ∧
  connectCodeToHTTP CodeUnauthenticated = 401 ∧
  connectCodeToHTTP CodeCanceled = 499 ∧
  connectCodeToHTTP CodeUnknown = 500 ∧
  (∀ code : Code, ¬ inEnumeration code → connectCodeToHTTP code = 500) ∧
  (∀ code : Code, ∃ status, connectCodeToHTTP code = status ∧ 400 <= status <= 504).
Proof.
  repeat (split; [reflexivity |]). split.
  - intros code Hout. unfold inEnumeration, minCode, maxCode in Hout.
    unfold connectCodeToHTTP.
    repeat (match goal with
            | |- context [?x =? ?y] =>
                destruct (Z.eqb_spec x y) as [-> | _];
                [exfalso; apply Hout; vm_compute; split; discriminate |]
            end).
    reflexivity.
  - intros code. eexists; split; [reflexivity |].
    unfold connectCodeToHTTP.
    repeat (match goal with
            | |- context [?x =? ?y] => destruct (x =? y); [lia |]
            end).
    lia.
Qed.

Lemma C5_connectCodeToHTTP_total_table_witness :
  connectCodeToHTTP 0 = 500 ∧ connectCodeToHTTP 17 = 500.
Proof.
  pose proof C5_connectCodeToHTTP_total_table as H.
  do 8 apply proj2 in H. apply proj1 in H.
  split; apply H; unfold inEnumeration, minCode, maxCode,
    CodeCanceled, CodeUnauthenticated; lia.
Defined.

(** ** Connect wire details and errors *)

Section ConnectWireFacts.
Context {T : GoTypes} {L : GoLibraries} {P : PackageHelpers}.

Lemma string_of_list_byte_nonempty (data : list byte) :
  data ≠ [] → String.eqb (String.string_of_list_byte data) "" = false.
Proof. destruct data as [| b data]; [done | reflexivity]. Qed.

(** What a successful [UnmarshalJSON] leaves in the detail. *)
Lemma UnmarshalJSON_Ok (data : list byte) (d : connectWireDetail) :
  UnmarshalJSON data = Ok d →
  isOk (json_Unmarshal_detail data) = true ∧
  wireJSON d = String.string_of_list_byte data ∧
  pbInner d = None.
Proof.
  unfold UnmarshalJSON.
  destruct (json_Unmarshal_detail data) as [[wireType wireValue] | e];
    cbn; [| discriminate].
  destruct (DecodeBinaryHeader wireValue); [| discriminate].
  intros [= <-]. done.
Qed.

(** C2: a detail unmarshaled from wire JSON marshals back to exactly the
    bytes it was read from, whatever the type URL and whether or not a
    schema resolves it.  The one fact used about [encoding/json] is that
    it rejects an empty input. *)
Theorem C2_detail_roundtrip (data : list byte) (d : connectWireDetail) :
  isOk (json_Unmarshal_detail []) = false →
  UnmarshalJSON data = Ok d →
  MarshalJSON d = Ok data.
Proof.
  intros Hempty Hd.
  destruct (UnmarshalJSON_Ok data d Hd) as (Hok & Hwire & _).
  assert (data ≠ []) as Hne by (intros ->; congruence).
  unfold MarshalJSON. rewrite Hwire.
  rewrite (string_of_list_byte_nonempty data Hne). cbn.
  by rewrite String.list_byte_of_string_of_list_byte.
Qed.

(** [asError] on a receiver whose code is outside the enumeration. *)
Lemma asError_out_of_range (e : connectWireError) :
  ¬ inEnumeration (Code_ e) →
  ∃ e' failure,
    asError (Some e) = (Some e', Some failure) ∧
    Code_ e' = CodeUnknown ∧
    code failure = CodeUnknown ∧
    err failure = errors_New (Message e) ∧
    details failure = Details e ∧
    wireErr failure = true.
Proof.
  intros Hout. unfold asError.
  assert ((Code_ e <? minCode) || (Code_ e >? maxCode) = true) as ->.
  { unfold inEnumeration in Hout. apply orb_true_iff.
    destruct (Z.ltb_spec (Code_ e) minCode); [by left | right].
    apply Z.gtb_lt. lia. }
  cbn [Code_ Message Details].
  destruct (Details e) as [| d ds] eqn:Hds; cbn;
    eexists _, _; (split; [reflexivity |]); cbn; by rewrite ?Hds.
Qed.

(** C4: when the ["code"] string of a wire error is not recognized or
    is malformed ([UnmarshalText] fails), or names a value outside the
    enumeration, unmarshaling into a fresh wire error succeeds with the
    message and the details deserialized, and [asError] gives an error
    received from the wire whose code is [CodeUnknown]. *)
Theorem C4_lenient_code (data : list byte) (fields : wireErrorFields)
    (wireDetails : list (option connectWireDetail)) :
  json_Unmarshal_wireError data = Ok fields →
  mapResult unmarshalDetailPtr (fieldDetails fields) = Ok wireDetails →
  (∀ c, Code_UnmarshalText (String.list_byte_of_string (fieldCode fields)) = Ok c →
        ¬ inEnumeration c) →
  ∃ e e' failure,
    wireError_UnmarshalJSON zeroWireError data = Ok e ∧
    Message e = fieldMessage fields ∧
    Details e = wireDetails ∧
    asError (Some e) = (Some e', Some failure) ∧
    code failure = CodeUnknown ∧
    err failure = errors_New (fieldMessage fields) ∧
    details failure = wireDetails ∧
    wireErr failure = true.
Proof.
  intros Hjson Hdetails Hcode.
  unfold wireError_UnmarshalJSON. rewrite Hjson. cbn.
  rewrite Hdetails. cbn.
  destruct (Code_UnmarshalText _) as [c | e] eqn:Htext.
  - specialize (Hcode c eq_refl).
    destruct (asError_out_of_range
                {| Code_ := c; Message := fieldMessage fields;
                   Details := wireDetails |} Hcode)
      as (e' & failure & Has & _ & H1 & H2 & H3 & H4).
    eexists _, e', failure. repeat split; try done.
  - assert (¬ inEnumeration (Code_ zeroWireError)) as Hzero
        by (vm_compute; intros [H _]; by apply H).
    destruct (asError_out_of_range
                {| Code_ := Code_ zeroWireError;
                   Message := fieldMessage fields;
                   Details := wireDetails |} Hzero)
      as (e' & failure & Has & _ & H1 & H2 & H3 & H4).
    eexists _, e', failure. repeat split; try done.
Qed.

(** ** Response content type *)

(** C8: for a 200 response, the bare JSON subtype and the JSON subtype
    with its charset parameter are accepted as equal, in both directions;
    the call of the specification returns nil. *)
Theorem C8_json_charset_equivalence :
  connectValidateUnaryResponseContentType
    "json" "POST" 200 "" "application/json; charset=utf-8" = None ∧
  (∀ httpMethod statusMsg,
     connectValidateUnaryResponseContentType codecNameJSON httpMethod
       http.StatusOK statusMsg
       (connectUnaryContentTypePrefix +:+ codecNameJSONCharsetUTF8) = None) ∧
  (∀ httpMethod statusMsg,
     connectValidateUnaryResponseContentType codecNameJSONCharsetUTF8 httpMethod
       http.StatusOK statusMsg
       (connectUnaryContentTypePrefix +:+ codecNameJSON) = None).
Proof.
  split; [reflexivity |].
  split; intros httpMethod statusMsg;
    unfold connectValidateUnaryResponseContentType; reflexivity.
Qed.

(** C9: a 304 answer to a GET gives the wire error with code
    [CodeUnknown] that wraps the not-modified sentinel, not the error made
    from the HTTP status; the validation returns that error exactly when
    the status is 304 and the method is GET. *)
Theorem C9_not_modified_sentinel :
  connectValidateUnaryResponseContentType "proto" "GET" 304 "" ""
    = Some (NewWireError CodeUnknown errNotModifiedClient) ∧
  connectValidateUnaryResponseContentType "proto" "GET" 304 "" ""
    ≠ Some (NewError (httpToCode 304) (errors_New "")) ∧
  (∀ requestCodecName httpMethod statusCode statusMsg responseContentType,
     connectValidateUnaryResponseContentType requestCodecName httpMethod
       statusCode statusMsg responseContentType
       = Some (NewWireError CodeUnknown errNotModifiedClient)
     ↔ statusCode = http.StatusNotModified ∧ httpMethod = http.MethodGet).
Proof.
  split; [reflexivity |]. split; [discriminate |].
  intros requestCodecName httpMethod statusCode statusMsg responseContentType.
  unfold connectValidateUnaryResponseContentType, http.StatusOK,
    http.StatusNotModified, http.MethodGet.
  destruct (Z.eqb_spec statusCode 200) as [-> | Hnot200]; cbn [negb].
  - split; [| intros [[=] _]].
    repeat (match goal with
            | |- context [if ?b then _ else _] => destruct b
            end); discriminate.
  - destruct (Z.eqb_spec statusCode 304) as [-> | Hnot304]; cbn [andb].
    + destruct (String.eqb_spec httpMethod "GET") as [-> | Hm].
      * done.
      * split; [| intros [_ ?]; done].
        repeat (match goal with
                | |- context [if ?b then _ else _] => destruct b
                end); discriminate.
    + split; [| intros [? _]; done].
      repeat (match goal with
              | |- context [if ?b then _ else _] => destruct b
              end); discriminate.
Qed.

End ConnectWireFacts.

(** The theorems above, run on the reference instance: no schema is
    available there, [x/y] resolves to nothing. *)
Section ConnectWireExamples.
Import Reference.
#[local] Existing Instances refTypes refLibraries refHelpers.

Lemma C2_detail_roundtrip_witness :
  UnmarshalJSON xyDocument = Ok xyDetail ∧
  isOk (getInner xyDetail) = false ∧
  MarshalJSON xyDetail = Ok xyDocument.
Proof.
  split; [vm_compute; reflexivity |]. split; [reflexivity |].
  apply (C2_detail_roundtrip xyDocument); vm_compute; reflexivity.
Defined.

Lemma C4_lenient_code_witness :
  ∃ e e' failure,
    wireError_UnmarshalJSON zeroWireError bogusCodeDocument = Ok e ∧
    Message e = "m" ∧
    Details e = [Some xyDetail] ∧
    asError (Some e) = (Some e', Some failure) ∧
    code failure = CodeUnknown ∧
    err failure = errors_New "m" ∧
    details failure = [Some xyDetail] ∧
    wireErr failure = true.
Proof.
  apply (C4_lenient_code bogusCodeDocument
           {| fieldCode := "bogus"; fieldMessage := "m";
              fieldDetails := [Some xyDocument] |}
           [Some xyDetail]).
  - vm_compute; reflexivity.
  - vm_compute; reflexivity.
  - intros c Hc. vm_compute in Hc. discriminate.
Defined.

Lemma C9_not_modified_sentinel_witness :
  connectValidateUnaryResponseContentType "json" "GET" 304 "Not Modified"
    "text/plain"
  = Some (NewWireError CodeUnknown errNotModifiedClient).
Proof.
  apply (proj2 (proj2 C9_not_modified_sentinel)). split; reflexivity.
Defined.

Example code99_becomes_unknown :
  wireError_UnmarshalJSON zeroWireError code99Document
    = Ok {| Code_ := 99; Message := "later"; Details := [] |} ∧
  (code <$> snd (asError (Some {| Code_ := 99; Message := "later";
                                  Details := [] |})))
    = Some CodeUnknown.
Proof. split; vm_compute; reflexivity. Qed.

(** Without the cache of the wire JSON a detail is marshalled from its
    type URL and payload. *)
Example fresh_detail_marshals :
  MarshalJSON {| pbAny := Some {| TypeUrl := "type.googleapis.com/x.y";
                                  Value := String.list_byte_of_string "foo" |};
                 pbInner := None; wireJSON := "" |}
    = Ok (jsonBytes "{'type':'x.y','value':'Zm9v'}").
Proof. vm_compute; reflexivity. Qed.

End ConnectWireExamples.

(** ** Options *)

Section OptionFacts.
Context {T : GoTypes}.

(** What [chainWith] stands for: the layers of the option, first
    outermost, inside the interceptor already configured. *)
Lemma chainWith_wrapping (F : Type) (wrap : Interceptor → F → F)
    (newChain_wrap : ∀ l next, wrap (newChain l) next = foldr (layer wrap) next l)
    (interceptors : list (option Interceptor)) (current : option Interceptor)
    (next : F) :
  layer wrap (chainWith interceptors current) next
  = layer wrap current (foldr (layer wrap) next interceptors).
Proof.
  unfold chainWith.
  destruct interceptors as [| i [| j rest]]; [by destruct current | |].
  - destruct current as [c |]; cbn; [| done].
    by rewrite newChain_wrap.
  - destruct current as [c |]; cbn; by rewrite newChain_wrap.
Qed.

Lemma chainWith_sameWrapping (xs ys : list (option Interceptor))
    (current : option Interceptor) :
  sameWrapping (chainWith ys (chainWith xs current)) (chainWith (xs ++ ys) current).
Proof.
  repeat split; intros next;
    unfold wrapUnaryOf, wrapStreamingClientOf, wrapStreamingHandlerOf;
    rewrite !chainWith_wrapping by done; by rewrite foldr_app.
Qed.

(** C3: on every client or handler config, [WithInterceptors(A)] followed
    by [WithInterceptors(B, C)] gives the config [WithInterceptors(A, B, C)]
    gives, with an interceptor that wraps every call the same way: A
    around B around C around the call, inside whatever interceptor the
    config already had, and outermost when it had none. *)
Theorem C3_interceptors_concatenate (A B C : Interceptor)
    (cc : clientConfig) (hc : handlerConfig) :
  let optA := WithInterceptors [Some A] in
  let optBC := WithInterceptors [Some B; Some C] in
  let optABC := WithInterceptors [Some A; Some B; Some C] in
  sameClientConfig (applyToClient optBC (applyToClient optA cc))
                   (applyToClient optABC cc) ∧
  sameHandlerConfig (applyToHandler optBC (applyToHandler optA hc))
                    (applyToHandler optABC hc) ∧
  (∀ next,
     wrapUnaryOf (cInterceptor (applyToClient optBC (applyToClient optA cc))) next
     = wrapUnaryOf (cInterceptor cc)
         (WrapUnary A (WrapUnary B (WrapUnary C next)))) ∧
  (∀ next,
     wrapUnaryOf (hInterceptor (applyToHandler optBC (applyToHandler optA hc))) next
     = wrapUnaryOf (hInterceptor hc)
         (WrapUnary A (WrapUnary B (WrapUnary C next)))) ∧
  (∀ next,
     wrapStreamingClientOf
       (cInterceptor (applyToClient optBC (applyToClient optA cc))) next
     = wrapStreamingClientOf (cInterceptor cc)
         (WrapStreamingClient A
            (WrapStreamingClient B (WrapStreamingClient C next)))) ∧
  (∀ next,
     wrapStreamingHandlerOf
       (hInterceptor (applyToHandler optBC (applyToHandler optA hc))) next
     = wrapStreamingHandlerOf (hInterceptor hc)
         (WrapStreamingHandler A
            (WrapStreamingHandler B (WrapStreamingHandler C next)))).
Proof.
  intros optA optBC optABC.
  split; [| split].
  - repeat (split; [reflexivity |]).
    apply (chainWith_sameWrapping [Some A] [Some B; Some C]).
  - repeat (split; [reflexivity |]).
    apply (chainWith_sameWrapping [Some A] [Some B; Some C]).
  - subst optA optBC optABC.
    cbn [applyToClient applyToHandler WithInterceptors cInterceptor
         hInterceptor interceptorsOption_applyToClient
         interceptorsOption_applyToHandler].
    repeat split; intros next;
      unfold wrapUnaryOf, wrapStreamingClientOf, wrapStreamingHandlerOf;
      by rewrite !chainWith_wrapping.
Qed.

(** C10: [WithCodec] with a nil codec, or with a codec whose name is
    empty, leaves a client config and a handler config as they were: the
    client's [Codec] keeps its value and the handler's [Codecs] gains no
    entry. *)
Theorem C10_WithCodec_nil_or_unnamed_is_noop (codec : option Codec)
    (cc : clientConfig) (hc : handlerConfig) :
  (codec = None ∨ ∃ c, codec = Some c ∧ Name c = "") →
  applyToClient (WithCodec codec) cc = cc ∧
  applyToHandler (WithCodec codec) hc = hc ∧
  cCodec (applyToClient (WithCodec codec) cc) = cCodec cc ∧
  hCodecs (applyToHandler (WithCodec codec) hc) = hCodecs hc.
Proof.
  intros [-> | (c & -> & Hname)]; cbn; [done |].
  rewrite Hname. done.
Qed.

End OptionFacts.

Section OptionExamples.
Import Reference.
#[local] Existing Instance refTypes.

(** The hooks of recording interceptors around a synthetic call, for the
    two ways of supplying A, B and C. *)
Example interceptor_hook_order :
  let cc := {| cProtocol := None; cSchema := None; cCodec := None;
               cReadMaxBytes := 0; cSendMaxBytes := 0;
               cIdempotencyLevel := 0; cInterceptor := None |} in
  let A := Some (recording "A") in
  let B := Some (recording "B") in
  let C := Some (recording "C") in
  let inOrder := ["A:pre"; "B:pre"; "C:pre"; "call"; "C:post"; "B:post"; "A:post"] in
  wrapUnaryOf
    (cInterceptor (applyToClient (WithInterceptors [B; C])
                     (applyToClient (WithInterceptors [A]) cc)))
    syntheticCall [] = inOrder ∧
  wrapUnaryOf
    (cInterceptor (applyToClient (WithInterceptors [A; B; C]) cc))
    syntheticCall [] = inOrder.
Proof. split; reflexivity. Qed.

Lemma C10_WithCodec_nil_or_unnamed_is_noop_witness :
  applyToClient (WithCodec (Some unnamedCodec)) jsonClient = jsonClient ∧
  applyToHandler (WithCodec (Some unnamedCodec)) jsonHandler = jsonHandler ∧
  cCodec (applyToClient (WithCodec (Some unnamedCodec)) jsonClient)
    = Some jsonCodec ∧
  hCodecs (applyToHandler (WithCodec (Some unnamedCodec)) jsonHandler)
    = {[ "json" := jsonCodec ]}.
Proof.
  apply (C10_WithCodec_nil_or_unnamed_is_noop (Some unnamedCodec)
           jsonClient jsonHandler).
  right. exists unnamedCodec. split; reflexivity.
Defined.

End OptionExamples.

(** ** Error writer *)

Section ErrorWriterFacts.
Context {T : GoTypes} {L : GoLibraries} {P : PackageHelpers}.

Lemma prefix_append (pre s : string) : String.prefix pre (pre +:+ s) = true.
Proof.
  induction pre as [| c pre IH]; simpl; [by destruct s |].
  destruct (ascii_dec c c); [exact IH | done].
Qed.

Lemma classifyRequest_grpc (w : ErrorWriter) (request : Request) :
  classifyRequest w request = grpcProtocol ↔ looksLikeGRPC request.
Proof.
  unfold classifyRequest, looksLikeGRPC.
  destruct (String.eqb_spec (Method request) http.MethodPost) as [Hm | Hm];
    cbn [andb].
  - destruct (String.eqb_spec (requestContentType request) grpcContentTypeDefault)
      as [Hc | Hc]; cbn [orb].
    + intuition.
    + destruct (strings.HasPrefix _ _); intuition congruence.
  - intuition congruence.
Qed.

(** C6: the classification answers gRPC, and [IsSupported] true, exactly
    when the method is POST and the canonicalized Content-Type is the
    default gRPC media type or starts with the gRPC codec prefix.  So a
    POST whose Content-Type is [application/grpc], or
    [application/grpc+] followed by any codec name, is supported as soon
    as canonicalization leaves that Content-Type as it is: no codec
    registry is consulted. *)
Theorem C6_grpc_classification (w : ErrorWriter) (request : Request) :
  (classifyRequest w request = grpcProtocol ↔ looksLikeGRPC request) ∧
  (IsSupported w request = true ↔ looksLikeGRPC request) ∧
  (∀ contentType codecName,
     Method request = "POST" →
     getHeaderCanonical (Header request) "Content-Type" = contentType →
     canonicalizeContentType contentType = contentType →
     contentType = "application/grpc" ∨
     contentType = "application/grpc+" +:+ codecName →
     IsSupported w request = true).
Proof.
  assert (IsSupported w request = true ↔ looksLikeGRPC request) as Hsupported.
  { unfold IsSupported. rewrite bool_decide_eq_true.
    rewrite <- (classifyRequest_grpc w request).
    destruct (classifyRequest w request); split; intros H;
      done || (exfalso; by apply H). }
  split; [apply classifyRequest_grpc |]. split; [exact Hsupported |].
  intros contentType codecName Hpost Hheader Hcanonical Hshape.
  apply Hsupported. split; [exact Hpost |].
  unfold requestContentType. change headerContentType with "Content-Type".
  rewrite Hheader, Hcanonical.
  destruct Hshape as [-> | ->]; [by left | right].
  apply (prefix_append "application/grpc+").
Qed.

Lemma mergeHeaders_lookup (into from : http.Header) (k : string)
    (values : list string) :
  from !! k = Some values →
  mergeHeaders into from !! k = Some (default [] (into !! k) ++ values).
Proof.
  intros Hfrom. unfold mergeHeaders.
  rewrite lookup_union_with, Hfrom. by destruct (into !! k).
Qed.

Lemma rangeOrder_keys (h : http.Header) (keys : list string) :
  keys ≡ₚ (map_to_list h).*1 →
  NoDup keys ∧ ∀ k, k ∈ keys ↔ is_Some (h !! k).
Proof.
  intros Hperm. split.
  - rewrite Hperm. apply NoDup_fst_map_to_list.
  - intros k. rewrite Hperm, list_elem_of_fmap. split.
    + intros ([k' values] & -> & Hin).
      apply elem_of_map_to_list in Hin. by exists values.
    + intros [values Hk]. exists (k, values). split; [done |].
      by apply elem_of_map_to_list.
Qed.

(** C7: for a request classified as gRPC, [Write] sends one status line,
    200, and returns nil.  The headers sent with it carry the
    canonicalized Content-Type of the request and a [Trailer] header that
    lists, once each, the keys of the trailers [grpcErrorToTrailer] makes
    for the error; every other header is as the caller left it; the
    trailers themselves are put in the header map after the status line,
    and no body is written.  For a request of unknown protocol [Write]
    leaves the response untouched and returns nil.  The order in which
    [range] visits the trailer keys is any order that visits each key
    once. *)
Theorem C7_Write_grpc_or_noop (w : ErrorWriter) (response : ResponseWriter)
    (request : Request) (failure : option errorValue) :
  let ctype := requestContentType request in
  let trailers := grpcErrorToTrailer ∅ (protobuf w) failure in
  rangeOrder trailers ≡ₚ (map_to_list trailers).*1 →
  (classifyRequest w request = grpcProtocol →
   ∃ sent keys,
     Write w response request failure
       = ({| rwHeader := mergeHeaders sent trailers;
             rwCalls := rwCalls response ++ [CallWriteHeader 200 sent] |},
          None) ∧
     sent !! "Content-Type" = Some [ctype] ∧
     sent !! "Trailer" = Some [strings.Join keys ","] ∧
     NoDup keys ∧
     (∀ k, k ∈ keys ↔ is_Some (trailers !! k)) ∧
     (∀ k, k ≠ "Content-Type" → k ≠ "Trailer" →
           sent !! k = rwHeader response !! k) ∧
     (∀ k values, trailers !! k = Some values →
        mergeHeaders sent trailers !! k
          = Some (default [] (sent !! k) ++ values))) ∧
  (classifyRequest w request = unknownProtocol →
   Write w response request failure = (response, None)).
Proof.
  intros ctype trailers Hrange. split.
  - intros Hgrpc.
    destruct (rangeOrder_keys trailers (rangeOrder trailers) Hrange)
      as [Hnodup Hkeys].
    exists (setHeaderCanonical
              (setHeaderCanonical (rwHeader response) headerContentType ctype)
              headerTrailer (strings.Join (rangeOrder trailers) ",")),
           (rangeOrder trailers).
    split; [| split; [| split; [| split; [| split; [| split]]]]].
    + unfold Write. rewrite Hgrpc. reflexivity.
    + unfold setHeaderCanonical.
      rewrite lookup_insert_ne by discriminate.
      by rewrite lookup_insert_eq.
    + unfold setHeaderCanonical. by rewrite lookup_insert_eq.
    + exact Hnodup.
    + exact Hkeys.
    + intros k Hct Htr. unfold setHeaderCanonical.
      rewrite !lookup_insert_ne; [done | by intros <- | by intros <-].
    + intros k values Hk. by apply mergeHeaders_lookup.
  - intros Hunknown. unfold Write. by rewrite Hunknown.
Qed.

End ErrorWriterFacts.

Section ErrorWriterExamples.
Import Reference.
#[local] Existing Instances refTypes refLibraries refHelpers.

Lemma C6_grpc_classification_witness :
  IsSupported refWriter (postRequest "application/grpc") = true ∧
  IsSupported refWriter (postRequest "application/grpc+unknowncodec") = true.
Proof.
  split.
  - apply (proj2 (proj2 (C6_grpc_classification refWriter
                           (postRequest "application/grpc")))
             "application/grpc" "");
      [reflexivity | reflexivity | reflexivity | left; reflexivity].
  - apply (proj2 (proj2 (C6_grpc_classification refWriter
                           (postRequest "application/grpc+unknowncodec")))
             "application/grpc+unknowncodec" "unknowncodec");
      [reflexivity | reflexivity | reflexivity | right; reflexivity].
Defined.

(** The response to a request with a codec nobody registered: status 200,
    the announced trailer keys, and the status and message of the error
    as trailers. *)
Example unknown_codec_still_answered_in_protocol :
  let written :=
    fst (Write refWriter freshResponse
           (postRequest "application/grpc+unknowncodec") boom) in
  rwCalls written
    = [CallWriteHeader 200
         {[ "Content-Type" := ["application/grpc+unknowncodec"];
            "Trailer" := ["Grpc-Status,Grpc-Message"] ]}] ∧
  rwHeader written !! "Grpc-Status" = Some ["13"] ∧
  rwHeader written !! "Grpc-Message" = Some ["boom"].
Proof. repeat split; vm_compute; reflexivity. Qed.

Lemma C7_Write_grpc_or_noop_witness :
  let request := postRequest "application/grpc+unknowncodec" in
  let trailers := grpcErrorToTrailer ∅ (protobuf refWriter) boom in
  (classifyRequest refWriter request = grpcProtocol →
   ∃ sent keys,
     Write refWriter freshResponse request boom
       = ({| rwHeader := mergeHeaders sent trailers;
             rwCalls := rwCalls freshResponse ++ [CallWriteHeader 200 sent] |},
          None) ∧
     sent !! "Content-Type" = Some [requestContentType request] ∧
     sent !! "Trailer" = Some [strings.Join keys ","] ∧
     NoDup keys ∧
     (∀ k, k ∈ keys ↔ is_Some (trailers !! k)) ∧
     (∀ k, k ≠ "Content-Type" → k ≠ "Trailer" →
           sent !! k = rwHeader freshResponse !! k) ∧
     (∀ k values, trailers !! k = Some values →
        mergeHeaders sent trailers !! k
          = Some (default [] (sent !! k) ++ values))) ∧
  (classifyRequest refWriter request = unknownProtocol →
   Write refWriter freshResponse request boom = (freshResponse, None)).
Proof.
  apply (C7_Write_grpc_or_noop refWriter freshResponse
           (postRequest "application/grpc+unknowncodec") boom).
  reflexivity.
Defined.

(** A request that is not gRPC: nothing is written. *)
Example unknown_protocol_is_not_answered :
  IsSupported refWriter (postRequest "application/json") = false ∧
  Write refWriter freshResponse (postRequest "application/json") boom
    = (freshResponse, None).
Proof. split; vm_compute; reflexivity. Qed.

End ErrorWriterExamples.

(** * More of the sources *)

(** ** Compression registry: the advertised names in general *)

Section CompressionOrder.
Import Compression.

(** The loop keeps [seen] and [names] in step. *)
Lemma visit_keeps_step (l : list string) (seen : gset string) (names : list string) :
  (∀ x, x ∈ seen ↔ x ∈ names) → NoDup names →
  (∀ x, x ∈ fst (foldl visitName (seen, names) l)
        ↔ x ∈ snd (foldl visitName (seen, names) l)) ∧
  NoDup (snd (foldl visitName (seen, names) l)) ∧
  (∀ x, x ∈ snd (foldl visitName (seen, names) l) ↔ x ∈ names ∨ x ∈ l).
Proof.
  revert seen names. induction l as [| y l IH]; intros seen names Hstep Hnodup.
  - cbn. split; [done |]. split; [done |]. intros x. rewrite elem_of_nil. tauto.
  - cbn [foldl]. destruct (decide (y ∈ seen)) as [Hy | Hy].
    + rewrite visitName_seen by done.
      destruct (IH seen names Hstep Hnodup) as (H1 & H2 & H3).
      split; [done |]. split; [done |].
      intros x. rewrite H3, elem_of_cons.
      split; [tauto |]. intros [? | [-> | ?]]; auto. left. by apply Hstep.
    + rewrite visitName_fresh by done.
      destruct (IH ({[y]} ∪ seen) (names ++ [y])) as (H1 & H2 & H3).
      * intros x. specialize (Hstep x). set_unfold. tauto.
      * apply NoDup_app. split; [done |]. split; [| apply NoDup_singleton].
        intros x Hx ->%list_elem_of_singleton. apply Hy. by apply Hstep.
      * split; [done |]. split; [done |].
        intros x. rewrite H3. set_unfold. tauto.
Qed.

(** Starting the loop with names already seen gives those names,
    followed by what the loop gives from scratch without them. *)
Lemma visit_from (l : list string) (seen : gset string) (names : list string) :
  (∀ x, x ∈ seen ↔ x ∈ names) → NoDup names →
  snd (foldl visitName (seen, names) l)
  = names ++ filter (λ y, y ∉ names) (snd (foldl visitName (∅, []) l)).
Proof.
  intros Hstep Hnodup. induction l as [| y l IH] using rev_ind.
  - cbn. by rewrite app_nil_r.
  - rewrite !foldl_app. cbn [foldl].
    destruct (visit_keeps_step l seen names Hstep Hnodup) as (HA & _ & HA').
    destruct (visit_keeps_step l ∅ []) as (HB & _ & _);
      [intros x; rewrite elem_of_nil; set_unfold; tauto | constructor |].
    destruct (foldl visitName (seen, names) l) as [sA nA].
    destruct (foldl visitName (∅, []) l) as [sB nB].
    cbn [fst snd] in *.
    destruct (decide (y ∈ sB)) as [HyB | HyB].
    + rewrite (visitName_seen sB) by done. cbn [snd].
      rewrite visitName_seen; [done |].
      apply HA. rewrite IH, elem_of_app, list_elem_of_filter.
      destruct (decide (y ∈ names)); [by left | right].
      split; [done | by apply HB].
    + rewrite (visitName_fresh sB) by done. cbn [snd].
      rewrite filter_app, filter_singleton by exact [].
      destruct (decide (y ∉ names)) as [Hyn | Hyn].
      * rewrite visitName_fresh; [cbn; by rewrite IH, <- app_assoc |].
        rewrite HA, IH, elem_of_app, list_elem_of_filter.
        intros [? | [_ ?]]; [done |]. apply HyB. by apply HB.
      * rewrite visitName_seen; [cbn; by rewrite IH, app_nil_r |].
        apply HA, HA'. left. by apply dec_stable.
Qed.

(** X1: whatever names are registered, and however often, the advertised
    list has no duplicates and holds exactly the registered names. *)
Theorem X1_preferredNames_distinct_and_complete (reversedNames : list string) :
  NoDup (preferredNames reversedNames) ∧
  ∀ name, name ∈ preferredNames reversedNames ↔ name ∈ reversedNames.
Proof.
  unfold preferredNames.
  destruct (visit_keeps_step (rev reversedNames) ∅ []) as (_ & H2 & H3);
    [intros x; rewrite elem_of_nil; set_unfold; tauto | constructor |].
  split; [done |]. intros name.
  rewrite H3, elem_of_nil, !list_elem_of_In, <- in_rev. tauto.
Qed.

Lemma preferredNames_snoc (reversedNames : list string) (name : string) :
  preferredNames (reversedNames ++ [name])
  = name :: filter (λ other, other ≠ name) (preferredNames reversedNames).
Proof.
  unfold preferredNames. rewrite rev_unit. cbn [foldl].
  rewrite visitName_fresh by apply not_elem_of_empty.
  change ([] ++ [name]) with [name].
  rewrite visit_from.
  - cbn. f_equal. apply list_filter_iff. intros other.
    by rewrite list_elem_of_singleton.
  - intros x. set_unfold. tauto.
  - apply NoDup_singleton.
Qed.

Lemma filter_keeps_all {A : Type} (P : A → Prop) `{!∀ x, Decision (P x)}
    (l : list A) :
  (∀ x, x ∈ l → P x) → filter P l = l.
Proof.
  induction l as [| y l IH]; intros Hall; [done |].
  rewrite filter_cons_True by (apply Hall; left).
  f_equal. apply IH. intros x Hx. apply Hall. by right.
Qed.

(** X2: registering one more name puts it first in the advertised list
    and drops its earlier place, leaving the order of the others. *)
Theorem X2_preferredNames_last_registered_first (reversedNames : list string)
    (name : string) :
  preferredNames (reversedNames ++ [name])
  = name :: filter (λ other, other ≠ name) (preferredNames reversedNames) ∧
  head (preferredNames (reversedNames ++ [name])) = Some name.
Proof.
  rewrite preferredNames_snoc. by split.
Qed.

(** X3: when every name is registered once, the advertised order is the
    registration order reversed. *)
Theorem X3_preferredNames_of_distinct (reversedNames : list string) :
  NoDup reversedNames → preferredNames reversedNames = rev reversedNames.
Proof.
  induction reversedNames as [| name l IH] using rev_ind; [done |].
  intros [Hl [Hfresh _]]%NoDup_app.
  rewrite preferredNames_snoc, rev_unit, IH by done.
  f_equal. apply filter_keeps_all. intros x Hx ->.
  apply (Hfresh name); [| by apply list_elem_of_singleton].
  by apply list_elem_of_In, in_rev, list_elem_of_In.
Qed.

Lemma X3_preferredNames_of_distinct_witness :
  preferredNames ["gzip"; "br"; "zstd"] = ["zstd"; "br"; "gzip"].
Proof.
  apply (X3_preferredNames_of_distinct ["gzip"; "br"; "zstd"]).
  repeat constructor; set_unfold; intuition discriminate.
Defined.

(** X4: [Get] never gives a pool for the empty name or for [identity],
    registered or not; for any other name it gives what the map holds;
    and a name [Get] finds a pool for is one [Contains] reports. *)
Theorem X4_Get_skips_identity (m : namedCompressionPools) :
  Get m "" = None ∧
  Get m compressionIdentity = None ∧
  (∀ name, name ≠ "" → name ≠ compressionIdentity →
           Get m name = default None (nameToPool m !! name)) ∧
  (∀ name pool, Get m name = Some pool →
     Contains m name = true ∧ name ≠ "" ∧ name ≠ compressionIdentity).
Proof.
  split; [reflexivity |]. split; [reflexivity |]. split.
  - intros name H1 H2. unfold Get. rewrite decide_False; [done | tauto].
  - intros name pool. unfold Get, Contains.
    destruct (decide (name = "" ∨ name = compressionIdentity)) as [Hid | Hid];
      [discriminate |].
    intros Hget. split; [| tauto].
    apply bool_decide_eq_true.
    destruct (nameToPool m !! name); [done | discriminate].
Qed.

Lemma X4_Get_skips_identity_witness :
  let m := newReadOnlyCompressionPools
             {[ "identity" := Some mkCompressionPool;
                "gzip" := Some mkCompressionPool ]} ["identity"; "gzip"] in
  Get m "gzip" = Some mkCompressionPool ∧
  Contains m "gzip" = true ∧
  Get m "identity" = None ∧ Contains m "identity" = true.
Proof.
  intros m.
  pose proof (X4_Get_skips_identity m) as (_ & Hid & Hother & Hfound).
  assert (Get m "gzip" = Some mkCompressionPool) as Hgzip.
  { rewrite Hother by discriminate. vm_compute. reflexivity. }
  split; [exact Hgzip |].
  split; [exact (proj1 (Hfound "gzip" mkCompressionPool Hgzip)) |].
  split; [exact Hid | vm_compute; reflexivity].
Defined.

End CompressionOrder.

(** ** Content types *)

Section StringFacts.

Lemma prefix_inv (pre s : string) :
  String.prefix pre s = true → ∃ rest, s = pre +:+ rest.
Proof.
  revert s. induction pre as [| c pre IH]; intros s; [by exists s |].
  destruct s as [| c' s]; simpl; [discriminate |].
  destruct (ascii_dec c c') as [<- | _]; [| discriminate].
  intros [rest ->]%IH. by exists rest.
Qed.

Lemma substring_all (s : string) : String.substring 0 (String.length s) s = s.
Proof. induction s as [| c s IH]; simpl; [done | by rewrite IH]. Qed.

Lemma TrimPrefix_append (pre rest : string) :
  strings.TrimPrefix (pre +:+ rest) pre = rest.
Proof.
  unfold strings.TrimPrefix, strings.HasPrefix. rewrite prefix_append.
  induction pre as [| c pre IH]; simpl.
  - rewrite Nat.sub_0_r. apply substring_all.
  - exact IH.
Qed.

Lemma TrimPrefix_without (s pre : string) :
  strings.HasPrefix s pre = false → strings.TrimPrefix s pre = s.
Proof. unfold strings.TrimPrefix. by intros ->. Qed.


Lemma append_inj_r (pre a b : string) : pre +:+ a = pre +:+ b → a = b.
Proof. induction pre as [| c pre IH]; simpl; [done |]. intros [= H]. auto. Qed.

End StringFacts.

Section ContentTypeFacts.
Context {T : GoTypes} {L : GoLibraries} {P : PackageHelpers}
        {M : ErrorMethods} {SL : StreamLibraries}.

(** X5: the codec name read from a content type is the one the content
    type was built from: after [application/] for unary calls, after
    [application/connect+] for streams; a content type without the
    prefix is returned whole. *)
Theorem X5_codec_of_content_type (codecName : string) :
  connectCodecForContentType StreamTypeUnary
    (connectUnaryContentTypePrefix +:+ codecName) = codecName ∧
  (∀ streamType, streamType ≠ StreamTypeUnary →
     connectCodecForContentType streamType
       (connectStreamingContentTypePrefix +:+ codecName) = codecName) ∧
  (∀ contentType,
     strings.HasPrefix contentType connectUnaryContentTypePrefix = false →
     connectCodecForContentType StreamTypeUnary contentType = contentType).
Proof.
  split; [| split].
  - unfold connectCodecForContentType. rewrite decide_True by done.
    apply TrimPrefix_append.
  - intros streamType Hst. unfold connectCodecForContentType.
    rewrite decide_False by done. apply TrimPrefix_append.
  - intros contentType Hno. unfold connectCodecForContentType.
    rewrite decide_True by done. by apply TrimPrefix_without.
Qed.

Lemma sameCodec_eqb (responseCodecName requestCodecName : string) :
  sameCodec responseCodecName requestCodecName ↔
  String.eqb responseCodecName requestCodecName = true ∨
  (String.eqb responseCodecName codecNameJSON
   && String.eqb requestCodecName codecNameJSONCharsetUTF8)
  || (String.eqb responseCodecName codecNameJSONCharsetUTF8
      && String.eqb requestCodecName codecNameJSON) = true.
Proof.
  unfold sameCodec.
  rewrite orb_true_iff, !andb_true_iff, !String.eqb_eq. tauto.
Qed.

(** X6: a 200 response passes the unary validation exactly when its
    content type is [application/] followed by the request's codec name,
    or by the other JSON spelling when the request used one.  A content
    type without [application/] is refused with code Unknown, any other
    mismatch with code Internal; both errors are local ones. *)
Theorem X6_unary_ok_response (requestCodecName httpMethod statusMsg
    responseContentType : string) :
  let verdict :=
    connectValidateUnaryResponseContentType requestCodecName httpMethod
      http.StatusOK statusMsg responseContentType in
  (verdict = None ↔
   ∃ responseCodecName,
     responseContentType = connectUnaryContentTypePrefix +:+ responseCodecName ∧
     sameCodec responseCodecName requestCodecName) ∧
  (∀ e, verdict = Some e →
     wireErr e = false ∧
     code e = if strings.HasPrefix responseContentType connectUnaryContentTypePrefix
              then CodeInternal else CodeUnknown).
Proof.
  unfold connectValidateUnaryResponseContentType.
  change (http.StatusOK =? http.StatusOK) with true. cbn [negb].
  destruct (strings.HasPrefix responseContentType connectUnaryContentTypePrefix)
    eqn:Hprefix; cbn [negb].
  - destruct (prefix_inv _ _ Hprefix) as [codecName ->].
    unfold connectCodecForContentType. rewrite decide_True by done.
    rewrite TrimPrefix_append.
    pose proof (sameCodec_eqb codecName requestCodecName) as Hsame.
    destruct (String.eqb codecName requestCodecName).
    { split; [| discriminate]. split; [| done].
      intros _. exists codecName. split; [done |]. apply Hsame. by left. }
    destruct ((String.eqb codecName codecNameJSON
               && String.eqb requestCodecName codecNameJSONCharsetUTF8)
              || (String.eqb codecName codecNameJSONCharsetUTF8
                  && String.eqb requestCodecName codecNameJSON)).
    { split; [| discriminate]. split; [| done].
      intros _. exists codecName. split; [done |]. apply Hsame. by right. }
    split; [| by intros e [= <-]].
    split; [discriminate |].
    intros (c & ->%append_inj_r & Hc). apply Hsame in Hc.
    destruct Hc; discriminate.
  - split; [| by intros e [= <-]].
    split; [discriminate |].
    intros (c & -> & _). unfold strings.HasPrefix in Hprefix.
    by rewrite prefix_append in Hprefix.
Qed.

End ContentTypeFacts.

Section ResponseValidationFacts.
Context {T : GoTypes} {L : GoLibraries} {P : PackageHelpers}
        {M : ErrorMethods} {SL : StreamLibraries}.

(** X7: a response whose status is not 200, and that is not the 304
    answer to a GET, passes the unary validation exactly when its content
    type is one of the two JSON content types, whatever codec the request
    used; otherwise the error is a local one made from the HTTP status
    and the status message. *)
Theorem X7_unary_error_response (requestCodecName httpMethod : string)
    (statusCode : Z) (statusMsg responseContentType : string) :
  statusCode ≠ http.StatusOK →
  ¬ (statusCode = http.StatusNotModified ∧ httpMethod = http.MethodGet) →
  let verdict :=
    connectValidateUnaryResponseContentType requestCodecName httpMethod
      statusCode statusMsg responseContentType in
  (verdict = None ↔
   responseContentType = "application/json" ∨
   responseContentType = "application/json; charset=utf-8") ∧
  (verdict ≠ None →
   verdict = Some (NewError (httpToCode statusCode) (errors_New statusMsg))).
Proof.
  intros Hnot200 Hnot304 verdict. subst verdict.
  unfold connectValidateUnaryResponseContentType.
  destruct (Z.eqb_spec statusCode http.StatusOK) as [? | _]; [done |].
  cbn [negb].
  assert ((statusCode =? http.StatusNotModified)
          && String.eqb httpMethod http.MethodGet = false) as ->.
  { apply andb_false_iff.
    destruct (Z.eqb_spec statusCode http.StatusNotModified); [| by left].
    destruct (String.eqb_spec httpMethod http.MethodGet); [tauto | by right]. }
  change (connectUnaryContentTypePrefix +:+ codecNameJSON)
    with "application/json".
  change (connectUnaryContentTypePrefix +:+ codecNameJSONCharsetUTF8)
    with "application/json; charset=utf-8".
  destruct (String.eqb_spec responseContentType "application/json") as [-> | H1];
    cbn [orb]; [split; [tauto | done] |].
  destruct (String.eqb_spec responseContentType "application/json; charset=utf-8")
    as [-> | H2]; [split; [tauto | done] |].
  split; [| done]. split; [discriminate | tauto].
Qed.

(** X8: a stream response passes the validation exactly when its content
    type is [application/connect+] followed by the request's codec name;
    no JSON spelling is taken for another.  Without the prefix the error
    has code Unknown, with another codec code Internal. *)
Theorem X8_stream_response (requestCodecName : string) (streamType : StreamType)
    (responseContentType : string) :
  streamType ≠ StreamTypeUnary →
  let verdict :=
    connectValidateStreamResponseContentType requestCodecName streamType
      responseContentType in
  (verdict = None ↔
   responseContentType = connectStreamingContentTypePrefix +:+ requestCodecName) ∧
  (∀ e, verdict = Some e →
     wireErr e = false ∧
     code e = if strings.HasPrefix responseContentType connectStreamingContentTypePrefix
              then CodeInternal else CodeUnknown).
Proof.
  intros Hstream verdict. subst verdict.
  unfold connectValidateStreamResponseContentType.
  destruct (strings.HasPrefix responseContentType connectStreamingContentTypePrefix)
    eqn:Hprefix; cbn [negb].
  - destruct (prefix_inv _ _ Hprefix) as [codecName ->].
    unfold connectCodecForContentType. rewrite decide_False by done.
    rewrite TrimPrefix_append.
    destruct (String.eqb_spec codecName requestCodecName) as [-> | Hne];
      cbn [negb].
    + split; [done | discriminate].
    + split; [| by intros e [= <-]].
      split; [discriminate |]. by intros ?%append_inj_r.
  - split; [| by intros e [= <-]].
    split; [discriminate |].
    intros ->. unfold strings.HasPrefix in Hprefix.
    by rewrite prefix_append in Hprefix.
Qed.

(** X9: the version check accepts a GET exactly when the [connect] query
    parameter is [v1], or is empty or absent and the version is not
    required; a POST exactly when the [Connect-Protocol-Version] header
    is [1], or is empty or absent and the version is not required; and
    no other method.  Every refusal has code InvalidArgument. *)
Theorem X9_protocol_version (request : RequestURL) (required : bool) :
  let method := Method (urlRequest request) in
  let queryVersion := Values_Get (urlQuery request) "connect" in
  let headerVersion :=
    getHeaderCanonical (Header (urlRequest request)) "Connect-Protocol-Version" in
  let accepted (version expected : string) :=
    version = expected ∨ (version = "" ∧ required = false) in
  (connectCheckProtocolVersion request required = None ↔
   (method = "GET" ∧ accepted queryVersion "v1") ∨
   (method = "POST" ∧ accepted headerVersion "1")) ∧
  (∀ e, connectCheckProtocolVersion request required = Some e →
        code e = CodeInvalidArgument ∧ wireErr e = false).
Proof.
  intros method queryVersion headerVersion accepted.
  unfold connectCheckProtocolVersion.
  change (Values_Get (urlQuery request) connectUnaryConnectQueryParameter)
    with queryVersion.
  change (getHeaderCanonical (Header (urlRequest request))
            connectHeaderProtocolVersion) with headerVersion.
  change (Method (urlRequest request)) with method.
  change connectUnaryConnectQueryValue with "v1".
  change connectProtocolVersion with "1".
  change http.MethodGet with "GET". change http.MethodPost with "POST".
  unfold accepted.
  destruct (String.eqb_spec method "GET") as [Hget | Hget].
  - rewrite Hget.
    destruct (String.eqb_spec queryVersion "") as [Hv | Hv];
      destruct required; cbn [andb negb];
      [ rewrite Hv
      | rewrite Hv
      | destruct (String.eqb_spec queryVersion "v1") as [Hv1 | Hv1]; cbn [negb]
      | destruct (String.eqb_spec queryVersion "v1") as [Hv1 | Hv1]; cbn [negb] ];
      (split; [| intros e [= <-]; done || (by intros e [=])]);
      split; try discriminate; try (intros _; left; split; [done | tauto]);
      intros [[_ [? | [? ?]]] | [[=] _]]; congruence.
  - destruct (String.eqb_spec method "POST") as [Hpost | Hpost].
    + rewrite Hpost.
      destruct (String.eqb_spec headerVersion "") as [Hv | Hv];
        destruct required; cbn [andb negb];
        [ rewrite Hv
        | rewrite Hv
        | destruct (String.eqb_spec headerVersion "1") as [Hv1 | Hv1]; cbn [negb]
        | destruct (String.eqb_spec headerVersion "1") as [Hv1 | Hv1]; cbn [negb] ];
        (split; [| intros e [= <-]; done || (by intros e [=])]);
        split; try discriminate; try (intros _; right; split; [done | tauto]);
        intros [[[=] _] | [_ [? | [? ?]]]]; congruence.
    + split; [| by intros e [= <-]].
      split; [discriminate | intros [[? _] | [? _]]; done].
Qed.

End ResponseValidationFacts.

(** ** The properties above on the reference instance *)

Section ContentTypeExamples.
Import Reference.
#[local] Existing Instances refTypes refLibraries refHelpers refErrorMethods
  refStreamLibraries.

Lemma X5_codec_of_content_type_witness :
  connectCodecForContentType StreamTypeBidi "application/connect+proto" = "proto" ∧
  connectCodecForContentType StreamTypeUnary "text/plain" = "text/plain".
Proof.
  split.
  - apply (proj1 (proj2 (X5_codec_of_content_type "proto"))). discriminate.
  - apply (proj2 (proj2 (X5_codec_of_content_type ""))). reflexivity.
Defined.

Lemma X7_unary_error_response_witness :
  connectValidateUnaryResponseContentType "proto" "POST" 503 "Service Unavailable"
    "application/json" = None ∧
  connectValidateUnaryResponseContentType "proto" "POST" 304 "Not Modified"
    "text/html"
  = Some (NewError (httpToCode 304) (errors_New "Not Modified")).
Proof.
  split.
  - apply (X7_unary_error_response "proto" "POST" 503 "Service Unavailable"
             "application/json"); [discriminate | intros [[=] _] | by left].
  - apply (X7_unary_error_response "proto" "POST" 304 "Not Modified" "text/html");
      [discriminate | intros [_ [=]] | discriminate].
Defined.

Lemma X8_stream_response_witness :
  connectValidateStreamResponseContentType "json" StreamTypeServer
    "application/connect+json" = None ∧
  connectValidateStreamResponseContentType "json" StreamTypeServer
    "application/connect+json; charset=utf-8" ≠ None.
Proof.
  split.
  - by apply (X8_stream_response "json" StreamTypeServer
                "application/connect+json").
  - intros Hnone.
    by apply (X8_stream_response "json" StreamTypeServer
                "application/connect+json; charset=utf-8") in Hnone.
Defined.

Lemma X6_unary_ok_response_witness :
  connectValidateUnaryResponseContentType "proto" "POST" 200 "" "application/proto"
    = None ∧
  (code <$> connectValidateUnaryResponseContentType "proto" "POST" 200 ""
              "application/json") = Some CodeInternal ∧
  (code <$> connectValidateUnaryResponseContentType "proto" "POST" 200 ""
              "text/html") = Some CodeUnknown.
Proof.
  split; [| split].
  - apply (X6_unary_ok_response "proto" "POST" "" "application/proto").
    exists "proto". split; [reflexivity | by left].
  - destruct (connectValidateUnaryResponseContentType "proto" "POST" 200 ""
                "application/json") as [e |] eqn:He; [| discriminate He].
    cbn. f_equal.
    exact (proj2 (proj2 (X6_unary_ok_response "proto" "POST" ""
                           "application/json") e He)).
  - destruct (connectValidateUnaryResponseContentType "proto" "POST" 200 ""
                "text/html") as [e |] eqn:He; [| discriminate He].
    cbn. f_equal.
    exact (proj2 (proj2 (X6_unary_ok_response "proto" "POST" "" "text/html")
                    e He)).
Defined.

Lemma X9_protocol_version_witness :
  connectCheckProtocolVersion (getRequest {[ "connect" := ["v1"] ]}) true = None ∧
  connectCheckProtocolVersion (getRequest ∅) false = None ∧
  connectCheckProtocolVersion (getRequest ∅) true ≠ None.
Proof.
  split; [| split].
  - apply (X9_protocol_version (getRequest {[ "connect" := ["v1"] ]}) true).
    left. split; [reflexivity | left; reflexivity].
  - apply (X9_protocol_version (getRequest ∅) false).
    left. split; [reflexivity | right; split; reflexivity].
  - intros Hnone.
    apply (X9_protocol_version (getRequest ∅) true) in Hnone.
    destruct Hnone as [[_ [Hv | [_ Hr]]] | [Hm _]]; discriminate.
Defined.

End ContentTypeExamples.

(** ** Wire errors: the rest *)

Section WireErrorFacts.
Context {T : GoTypes} {L : GoLibraries} {P : PackageHelpers}
        {M : ErrorMethods} {SL : StreamLibraries}.

Lemma asError_in_range (e : connectWireError) :
  inEnumeration (Code_ e) →
  asError (Some e)
  = (Some e,
     Some {| code := Code_ e; err := errors_New (Message e);
             details := Details e; meta := ∅; wireErr := true |}).
Proof.
  intros [Hmin Hmax]. unfold asError.
  assert ((Code_ e <? minCode) || (Code_ e >? maxCode) = false) as ->.
  { apply orb_false_iff. split; [by apply Z.ltb_ge |].
    rewrite Z.gtb_ltb. by apply Z.ltb_ge. }
  destruct (Details e) as [| d ds] eqn:Hds; cbn; by rewrite ?Hds.
Qed.

(** What [asError] returns, in one equation per field. *)
Lemma asError_shape (e : connectWireError) :
  ∃ e' failure,
    asError (Some e) = (Some e', Some failure) ∧
    code failure = (if decide (inEnumeration (Code_ e))
                    then Code_ e else CodeUnknown) ∧
    err failure = errors_New (Message e) ∧
    details failure = Details e ∧
    wireErr failure = true ∧
    meta failure = ∅.
Proof.
  destruct (decide (inEnumeration (Code_ e))) as [Hin | Hout].
  - eexists _, _. split; [by apply asError_in_range |]. done.
  - unfold asError.
    assert ((Code_ e <? minCode) || (Code_ e >? maxCode) = true) as ->.
    { unfold inEnumeration in Hout. apply orb_true_iff.
      destruct (Z.ltb_spec (Code_ e) minCode); [by left | right].
      apply Z.gtb_lt. lia. }
    destruct (Details e) as [| d ds] eqn:Hds; cbn;
      eexists _, _; (split; [reflexivity |]); cbn; by rewrite ?Hds.
Qed.

(** X10: whatever code a wire error carries, the error [asError] makes
    of it has a code of the enumeration: the wire error's own code when
    that is one, Unknown otherwise.  The message and the details are
    kept, the error is marked as received from the wire, and it carries
    no metadata.  The receiver is left with the normalized code, so a
    second call gives the same error. *)
Theorem X10_asError_code_in_enumeration (e : connectWireError) :
  ∃ e' failure,
    asError (Some e) = (Some e', Some failure) ∧
    inEnumeration (code failure) ∧
    code failure = (if decide (inEnumeration (Code_ e))
                    then Code_ e else CodeUnknown) ∧
    err failure = errors_New (Message e) ∧
    details failure = Details e ∧
    wireErr failure = true ∧
    meta failure = ∅ ∧
    Code_ e' = code failure ∧
    asError (Some e') = (Some e', Some failure).
Proof.
  destruct (decide (inEnumeration (Code_ e))) as [Hin | Hout].
  - eexists _, _. split; [by apply asError_in_range |].
    cbn. repeat split; try done; try apply Hin.
    by apply asError_in_range.
  - destruct (asError_out_of_range e Hout)
      as (e' & failure & Has & He' & H1 & H2 & H3 & H4).
    exists e', failure.
    assert (inEnumeration CodeUnknown) as Hunknown by (vm_compute; split; discriminate).
    assert (e' = {| Code_ := CodeUnknown; Message := Message e;
                    Details := Details e |} ∧ meta failure = ∅) as [-> Hmeta].
    { unfold asError in Has.
      destruct ((Code_ e <? minCode) || (Code_ e >? maxCode)) eqn:Hb.
      - destruct (Details e); cbn in Has; by injection Has as <- <-.
      - exfalso. apply Hout. apply orb_false_iff in Hb as [Hb1 Hb2].
        apply Z.ltb_ge in Hb1. rewrite Z.gtb_ltb in Hb2.
        apply Z.ltb_ge in Hb2. by split. }
    split; [done |]. rewrite H1. repeat split; try done; try apply Hunknown.
    rewrite asError_in_range by done. cbn. f_equal. f_equal.
    destruct failure; cbn in *. by subst.
Qed.



(** X12: [UnmarshalJSON] fails in two ways only: the error of the JSON
    decoder is passed on as it is, and the error of the base64 decoder is
    wrapped as [decode base64: %w]. *)
Theorem X12_unmarshal_detail_failures (data : list byte) (e : error) :
  UnmarshalJSON data = Err e ↔
  json_Unmarshal_detail data = Err e ∨
  ∃ wireType wireValue cause,
    json_Unmarshal_detail data = Ok (wireType, wireValue) ∧
    DecodeBinaryHeader wireValue = Err cause ∧
    e = fmt_Errorf_w "decode base64: %w" [] cause.
Proof.
  unfold UnmarshalJSON.
  destruct (json_Unmarshal_detail data) as [[wireType wireValue] | e0]; cbn.
  - destruct (DecodeBinaryHeader wireValue) as [decoded | cause] eqn:Hdecode.
    + split; [discriminate |].
      intros [Hjson | (ty & v & c & Hjson & Hd & _)]; [discriminate |].
      injection Hjson as <- <-. rewrite Hdecode in Hd. discriminate.
    + split.
      * intros [= <-]. right. by exists wireType, wireValue, cause.
      * intros [Hjson | (ty & v & c & Hjson & Hd & ->)]; [discriminate |].
        injection Hjson as <- <-. rewrite Hdecode in Hd. by injection Hd as <-.
  - split; [intros [= <-]; by left |].
    intros [[= <-] | (ty & v & c & Hjson & _)]; [done | discriminate].
Qed.

Lemma mapResult_fails {A B : Type} (f : A → result B) (l : list A) (a : A)
    (e : error) :
  a ∈ l → f a = Err e → ∃ e', mapResult f l = Err e'.
Proof.
  intros Hin Hfail. induction l as [| x l IH]; [by apply elem_of_nil in Hin |].
  cbn. apply elem_of_cons in Hin as [<- | Hin].
  - rewrite Hfail. by exists e.
  - destruct (f x); cbn; [| by eexists].
    destruct (IH Hin) as [e' ->]. by exists e'.
Qed.

(** X13: a wire error whose ["details"] hold one element that does not
    unmarshal is refused as a whole.  When it unmarshals, a code
    [UnmarshalText] decodes replaces the receiver's code, and a code it
    cannot decode leaves the receiver's code as it was: the message and
    the details are the document's in both cases. *)
Theorem X13_wire_error_unmarshal (e : connectWireError) (data : list byte)
    (fields : wireErrorFields) :
  json_Unmarshal_wireError data = Ok fields →
  (∀ raw cause, Some raw ∈ fieldDetails fields → UnmarshalJSON raw = Err cause →
     ∃ cause', wireError_UnmarshalJSON e data = Err cause') ∧
  (∀ e1, wireError_UnmarshalJSON e data = Ok e1 →
     Message e1 = fieldMessage fields ∧
     mapResult unmarshalDetailPtr (fieldDetails fields) = Ok (Details e1) ∧
     Code_ e1 =
       match Code_UnmarshalText (String.list_byte_of_string (fieldCode fields)) with
       | Ok c => c
       | Err _ => Code_ e
       end).
Proof.
  intros Hjson. unfold wireError_UnmarshalJSON. rewrite Hjson. cbn. split.
  - intros raw cause Hin Hfail.
    destruct (mapResult_fails unmarshalDetailPtr (fieldDetails fields)
                (Some raw) cause Hin) as [cause' ->].
    + cbn. by rewrite Hfail.
    + by exists cause'.
  - intros e1.
    destruct (mapResult unmarshalDetailPtr (fieldDetails fields)); cbn;
      [| discriminate].
    destruct (Code_UnmarshalText _); by intros [= <-].
Qed.

(** X14: a local error turned into a wire error and back keeps its
    message and details and, when its code is one of the enumeration, its
    code; any other code becomes Unknown.  What comes back is marked as
    received from the wire and carries none of the metadata.  An error
    that holds no [Error] comes back with code Unknown, its text as the
    message, and no details. *)
Theorem X14_wire_error_round_trip (failure : errorValue) :
  ∃ back,
    snd (asError (Some (newConnectWireError failure))) = Some back ∧
    wireErr back = true ∧ meta back = ∅ ∧
    match package_asError failure with
    | Some connectErr =>
        code back = (if decide (inEnumeration (code connectErr))
                     then code connectErr else CodeUnknown) ∧
        err back = errors_New (Error_Message connectErr) ∧
        details back = details connectErr
    | None =>
        code back = CodeUnknown ∧
        err back = errors_New (error_Error failure) ∧
        details back = []
    end.
Proof.
  destruct (asError_shape (newConnectWireError failure))
    as (e' & back & Has & Hcode & Herr & Hdetails & Hwire & Hmeta).
  exists back. rewrite Has. split; [done |]. split; [done |]. split; [done |].
  rewrite Hcode, Herr, Hdetails. unfold newConnectWireError.
  destruct (package_asError failure) as [connectErr |]; cbn.
  - split; [done |]. split; [done |].
    by destruct (details connectErr).
  - rewrite decide_True by (vm_compute; split; discriminate). done.
Qed.

End WireErrorFacts.

(** ** The streaming unmarshaler *)

Section StreamFacts.
Context {T : GoTypes} {L : GoLibraries} {P : PackageHelpers}
        {M : ErrorMethods} {SL : StreamLibraries}.

(** One turn of the loop, by cases. *)
Lemma canonicalizeEntry_cases (h : http.Header) (name : string) :
  canonicalizeEntry h name = h ∧
    (h !! name = None ∨ name = http_CanonicalHeaderKey name)
  ∨ ∃ value,
      h !! name = Some value ∧ name ≠ http_CanonicalHeaderKey name ∧
      canonicalizeEntry h name
      = <[http_CanonicalHeaderKey name :=
            default [] (h !! http_CanonicalHeaderKey name) ++ value]>
          (delete name h).
Proof.
  unfold canonicalizeEntry, delHeaderCanonical.
  destruct (h !! name) as [value |] eqn:Hname; [| left; auto].
  destruct (decide (name ≠ http_CanonicalHeaderKey name)) as [Hne | Heq].
  - right. exists value. repeat split; try done.
    by rewrite lookup_delete_ne.
  - left. split; [done | right]. by apply dec_stable.
Qed.

(** Keys still to visit or canonical, before and after the loop. *)
Lemma canonicalize_keys (keys : list string) (h : http.Header) :
  Forall (λ k, http_CanonicalHeaderKey (http_CanonicalHeaderKey k)
               = http_CanonicalHeaderKey k) keys →
  (∀ k, is_Some (h !! k) → http_CanonicalHeaderKey k = k ∨ k ∈ keys) →
  ∀ k, is_Some (foldl canonicalizeEntry h keys !! k) →
       http_CanonicalHeaderKey k = k.
Proof.
  revert h. induction keys as [| n keys IH]; intros h Hidem Hinv k Hk.
  - destruct (Hinv k Hk) as [? | Hin]; [done | by apply elem_of_nil in Hin].
  - apply Forall_cons in Hidem as [Hn Hidem].
    apply (IH (canonicalizeEntry h n)); [done | | done].
    clear k Hk. intros k Hk.
    destruct (canonicalizeEntry_cases h n)
      as [[Hstep Hsame] | (value & Hvalue & Hne & Hstep)];
      rewrite Hstep in Hk.
    + destruct (Hinv k Hk) as [? | [-> | ?]%elem_of_cons]; auto.
      destruct Hsame as [Hnone | Hcanonical]; [| by left].
      rewrite Hnone in Hk. by destruct Hk.
    + destruct (decide (k = http_CanonicalHeaderKey n)) as [-> | Hkc];
        [by left |].
      rewrite lookup_insert_ne in Hk by done.
      destruct (decide (k = n)) as [-> | Hkn].
      * rewrite lookup_delete_eq in Hk. by destruct Hk.
      * rewrite lookup_delete_ne in Hk by done.
        destruct (Hinv k Hk) as [? | [-> | ?]%elem_of_cons]; auto. done.
Qed.

(** A value is under its key while the key waits, and under the
    canonical key afterwards. *)
Lemma canonicalize_keeps (name v : string) (keys : list string) (h : http.Header) :
  http_CanonicalHeaderKey (http_CanonicalHeaderKey name)
    = http_CanonicalHeaderKey name →
  (name ∈ keys ∧ ∃ ws, h !! name = Some ws ∧ v ∈ ws)
  ∨ (∃ ws, h !! http_CanonicalHeaderKey name = Some ws ∧ v ∈ ws) →
  ∃ ws, foldl canonicalizeEntry h keys !! http_CanonicalHeaderKey name = Some ws
        ∧ v ∈ ws.
Proof.
  intros Hidem. revert h. induction keys as [| n keys IH]; intros h Hinv.
  - destruct Hinv as [[Hin _] | ?]; [by apply elem_of_nil in Hin | done].
  - apply (IH (canonicalizeEntry h n)).
    destruct (canonicalizeEntry_cases h n)
      as [[-> Hsame] | (value & Hvalue & Hne & ->)].
    + destruct Hinv as [[[-> | Hin]%elem_of_cons (ws & Hws & Hv)] | ?];
        [| left; eauto | by right].
      right. destruct Hsame as [Hnone | Hcanonical]; [congruence |].
      exists ws. by rewrite <- Hcanonical.
    + destruct Hinv as [[Hin (ws & Hws & Hv)] | (ws & Hws & Hv)].
      * destruct (decide (name = n)) as [-> | Hnn].
        -- right. rewrite lookup_insert_eq. eexists. split; [done |].
           apply elem_of_app. right. congruence.
        -- apply elem_of_cons in Hin as [? | Hin]; [done |].
           left. split; [done |].
           destruct (decide (name = http_CanonicalHeaderKey n)) as [Hnc | Hnc].
           ++ rewrite <- Hnc, lookup_insert_eq. eexists. split; [done |].
              rewrite Hws. cbn. apply elem_of_app. by left.
           ++ exists ws. rewrite lookup_insert_ne by done.
              by rewrite lookup_delete_ne.
      * right.
        destruct (decide (http_CanonicalHeaderKey name = http_CanonicalHeaderKey n))
          as [Hcc | Hcc].
        -- rewrite <- Hcc, lookup_insert_eq. eexists. split; [done |].
           rewrite Hws. cbn. apply elem_of_app. by left.
        -- rewrite lookup_insert_ne by done.
           rewrite lookup_delete_ne; [eauto |].
           intros Heq. apply Hne. by rewrite Heq, Hidem.
Qed.

Lemma canonicalize_unchanged (keys : list string) (h : http.Header) :
  (∀ k, is_Some (h !! k) → http_CanonicalHeaderKey k = k) →
  foldl canonicalizeEntry h keys = h.
Proof.
  intros Hcanonical. induction keys as [| n keys IH]; [done |].
  cbn [foldl].
  destruct (canonicalizeEntry_cases h n) as [[-> _] | (value & Hvalue & Hne & _)];
    [done |].
  exfalso. apply Hne. symmetry. apply Hcanonical. by rewrite Hvalue.
Qed.

(** X15: after the loop over the trailers of an end-of-stream message
    every key is in canonical form, and every value the message had under
    a name is found under the canonical form of that name; trailers whose
    keys are canonical already are left as they are.  This holds for any
    order in which [range] visits the keys, for a canonical form that is
    stable (canonical twice is canonical once) on the keys at hand. *)
Theorem X15_trailer_keys_canonical (h : http.Header) :
  rangeOrder h ≡ₚ (map_to_list h).*1 →
  Forall (λ k, http_CanonicalHeaderKey (http_CanonicalHeaderKey k)
               = http_CanonicalHeaderKey k) (rangeOrder h) →
  (∀ k, is_Some (canonicalizeTrailer h !! k) → http_CanonicalHeaderKey k = k) ∧
  (∀ name values v, h !! name = Some values → v ∈ values →
     ∃ kept, canonicalizeTrailer h !! http_CanonicalHeaderKey name = Some kept
             ∧ v ∈ kept) ∧
  ((∀ k, is_Some (h !! k) → http_CanonicalHeaderKey k = k) →
   canonicalizeTrailer h = h).
Proof.
  intros Hrange Hidem. destruct (rangeOrder_keys h _ Hrange) as [_ Hkeys].
  unfold canonicalizeTrailer. split; [| split].
  - apply canonicalize_keys; [done |]. intros k Hk. right. by apply Hkeys.
  - intros name values v Hname Hv.
    assert (name ∈ rangeOrder h) as Hin by (apply Hkeys; by rewrite Hname).
    apply canonicalize_keeps.
    + by apply (proj1 (Forall_forall _ _) Hidem name).
    + left. split; [done |]. by exists values.
  - apply canonicalize_unchanged.
Qed.

Lemma asError_some (wire : connectWireError) :
  ∃ failure, snd (asError (Some wire)) = Some failure ∧
             inEnumeration (code failure) ∧ wireErr failure = true.
Proof.
  destruct (asError_shape wire) as (e' & failure & Has & Hcode & _ & _ & Hw & _).
  exists failure. rewrite Has. split; [done |]. split; [| done].
  rewrite Hcode. case_decide; [done |]. vm_compute. split; discriminate.
Qed.

(** X16: the unmarshaler's trailers and end-of-stream error change only
    when it returns [errSpecialEnvelope].  A message and an error of the
    reader are passed on; a special envelope without the end-of-stream
    flag, or whose payload does not unmarshal, is an Internal error.  At
    the end of a stream the trailers are the message's with canonical
    keys, the end-of-stream error is nil exactly when the message has no
    error, and otherwise it is an error received from the wire with a
    code of the enumeration. *)
Theorem X16_streaming_unmarshal (u : connectStreamingUnmarshaler)
    (outcome : readOutcome) :
  let after := fst (connectStreamingUnmarshaler_Unmarshal u outcome) in
  let returned := snd (connectStreamingUnmarshaler_Unmarshal u outcome) in
  (returned ≠ ReturnSpecialEnvelope → after = u) ∧
  (outcome = ReadMessage → returned = ReturnNil) ∧
  (∀ e, outcome = ReadFailed e → returned = ReturnError e) ∧
  (∀ env, outcome = ReadSpecial env →
     IsSet env connectFlagEnvelopeEndStream = false
     ∨ isOk (unmarshalEndStream (Data env)) = false →
     ∃ e, returned = ReturnError e ∧ code e = CodeInternal) ∧
  (returned = ReturnSpecialEnvelope →
   ∃ env endMessage,
     outcome = ReadSpecial env ∧
     IsSet env connectFlagEnvelopeEndStream = true ∧
     unmarshalEndStream (Data env) = Ok endMessage ∧
     Trailer after = canonicalizeTrailer (endTrailer endMessage) ∧
     (EndStreamError after = None ↔ endError endMessage = None) ∧
     (∀ e, EndStreamError after = Some e →
           inEnumeration (code e) ∧ wireErr e = true)).
Proof.
  intros after returned. subst after returned.
  unfold connectStreamingUnmarshaler_Unmarshal, Trailer, EndStreamError.
  destruct outcome as [| e | env].
  - cbn [fst snd]. repeat split; intros; done || discriminate.
  - cbn [fst snd]. repeat split; intros; done || discriminate || congruence.
  - destruct (IsSet env connectFlagEnvelopeEndStream) eqn:Hflag; cbn [negb].
    2: { cbn [fst snd]. split; [done |]. split; [done |]. split; [done |].
         split; [| done]. intros env' _ _. by eexists. }
    destruct (unmarshalEndStream (Data env)) as [endMessage | cause] eqn:Hend.
    2: { cbn [fst snd]. split; [done |]. split; [done |]. split; [done |].
         split; [| done]. intros env' _ _. by eexists. }
    cbn [fst snd endStreamErr trailer].
    split; [done |]. split; [done |]. split; [done |]. split.
    { intros env' [= <-]. rewrite Hflag, Hend. by intros [? | ?]. }
    intros _. exists env, endMessage.
    split; [done |]. split; [done |]. split; [done |]. split; [done |].
    destruct (endError endMessage) as [wire |]; [| by split].
    destruct (asError_some wire) as (failure & -> & Hin & Hw).
    split; [done |]. by intros e [= <-].
Qed.

End StreamFacts.

(** ** Options: the rest *)

Section MoreOptionFacts.
Context {T : GoTypes}.

(** X17: composed options are applied in order: [WithOptions] of a
    concatenation is one [WithOptions] after the other, nesting
    [WithOptions] changes nothing, and [WithOptions] of no option leaves a
    config as it is; for clients and for handlers. *)
Theorem X17_WithOptions_in_order (xs ys : list Option)
    (clientOptions clientOptions' : list ClientOption)
    (handlerOptions handlerOptions' : list HandlerOption)
    (cc : clientConfig) (hc : handlerConfig) :
  WithClientOptions (clientOptions ++ clientOptions') cc
    = WithClientOptions clientOptions' (WithClientOptions clientOptions cc) ∧
  WithHandlerOptions (handlerOptions ++ handlerOptions') hc
    = WithHandlerOptions handlerOptions' (WithHandlerOptions handlerOptions hc) ∧
  applyToClient (WithOptions (xs ++ ys)) cc
    = applyToClient (WithOptions ys) (applyToClient (WithOptions xs) cc) ∧
  applyToHandler (WithOptions (xs ++ ys)) hc
    = applyToHandler (WithOptions ys) (applyToHandler (WithOptions xs) hc) ∧
  applyToClient (WithOptions [WithOptions xs; WithOptions ys]) cc
    = applyToClient (WithOptions (xs ++ ys)) cc ∧
  applyToHandler (WithOptions [WithOptions xs; WithOptions ys]) hc
    = applyToHandler (WithOptions (xs ++ ys)) hc ∧
  applyToClient (WithOptions []) cc = cc ∧
  applyToHandler (WithOptions []) hc = hc.
Proof.
  unfold WithClientOptions, WithHandlerOptions.
  cbn [applyToClient applyToHandler WithOptions foldl].
  by rewrite !foldl_app.
Qed.

(** X18: [WithCodec] with a named codec registers it: the handler finds
    it under its name, keeps every codec registered under another name,
    and a codec registered later under the same name replaces it; the
    client holds the last codec given.  No other field changes. *)
Theorem X18_WithCodec_registers (codec later : Codec)
    (cc : clientConfig) (hc : handlerConfig) :
  Name codec ≠ "" → Name later = Name codec →
  let hc1 := applyToHandler (WithCodec (Some codec)) hc in
  let cc1 := applyToClient (WithCodec (Some codec)) cc in
  hCodecs hc1 !! Name codec = Some codec ∧
  (∀ name, name ≠ Name codec → hCodecs hc1 !! name = hCodecs hc !! name) ∧
  hCodecs (applyToHandler (WithCodec (Some later)) hc1) !! Name codec
    = Some later ∧
  cCodec cc1 = Some codec ∧
  cCodec (applyToClient (WithCodec (Some later)) cc1) = Some later ∧
  (hSchema hc1, hReadMaxBytes hc1, hSendMaxBytes hc1, hIdempotencyLevel hc1,
   hInterceptor hc1, hRequireConnectProtocolHeader hc1, hProcedure hc1,
   hStreamType hc1)
  = (hSchema hc, hReadMaxBytes hc, hSendMaxBytes hc, hIdempotencyLevel hc,
     hInterceptor hc, hRequireConnectProtocolHeader hc, hProcedure hc,
     hStreamType hc) ∧
  (cProtocol cc1, cSchema cc1, cReadMaxBytes cc1, cSendMaxBytes cc1,
   cIdempotencyLevel cc1, cInterceptor cc1)
  = (cProtocol cc, cSchema cc, cReadMaxBytes cc, cSendMaxBytes cc,
     cIdempotencyLevel cc, cInterceptor cc).
Proof.
  intros Hnamed Hsame hc1 cc1. subst hc1 cc1.
  cbn [applyToClient applyToHandler WithCodec codecOption_applyToClient
       codecOption_applyToHandler].
  assert (String.eqb (Name codec) "" = false) as Hc by by apply String.eqb_neq.
  assert (String.eqb (Name later) "" = false) as Hl
      by (rewrite Hsame; by apply String.eqb_neq).
  rewrite Hc, Hl. cbn.
  split; [apply lookup_insert_eq |].
  split; [intros name Hname; by rewrite lookup_insert_ne |].
  split; [rewrite Hsame; apply lookup_insert_eq |].
  repeat split.
Qed.

(** X19: conditional handler options are ignored by a config without a
    procedure name, whatever the function would return; with a procedure
    name they are the options the function gives for the config's spec,
    applied in order. *)
Theorem X19_conditional_options (conditional : Spec → list HandlerOption)
    (config : handlerConfig) :
  (hProcedure config = "" →
   WithConditionalHandlerOptions conditional config = config) ∧
  (hProcedure config ≠ "" →
   WithConditionalHandlerOptions conditional config
   = WithHandlerOptions (conditional (newSpec config)) config).
Proof.
  unfold WithConditionalHandlerOptions, WithHandlerOptions.
  cbn [Procedure newSpec]. split.
  - by intros ->.
  - intros Hnamed. by rewrite (proj2 (String.eqb_neq _ _) Hnamed).
Qed.

End MoreOptionFacts.

(** ** Error writer: the rest *)

Section MoreErrorWriterFacts.
Context {T : GoTypes} {L : GoLibraries} {P : PackageHelpers}.

(** X20: [Write] answers exactly the requests [IsSupported] accepts: for
    those it adds one status line, 200, to the response; for the others
    it leaves the response as it is.  It never writes a body, always
    returns nil, and a request that is not a POST is never supported. *)
Theorem X20_Write_iff_supported (w : ErrorWriter) (response : ResponseWriter)
    (request : Request) (failure : option errorValue) :
  let written := fst (Write w response request failure) in
  (IsSupported w request = true →
   ∃ sent, rwCalls written = rwCalls response ++ [CallWriteHeader 200 sent]) ∧
  (IsSupported w request = false → written = response) ∧
  (∀ body, CallWrite body ∈ rwCalls written → CallWrite body ∈ rwCalls response) ∧
  snd (Write w response request failure) = None ∧
  (Method request ≠ "POST" → IsSupported w request = false).
Proof.
  intros written. subst written. unfold IsSupported, Write.
  assert (Method request ≠ "POST" → classifyRequest w request = unknownProtocol)
    as Hmethod.
  { intros Hm. unfold classifyRequest, http.MethodPost.
    by rewrite (proj2 (String.eqb_neq _ _) Hm). }
  destruct (classifyRequest w request) eqn:Hclass.
  - rewrite bool_decide_eq_true, bool_decide_eq_false. cbn [fst snd].
    split; [intros Hs; by destruct Hs |]. split; [done |]. split; [done |].
    split; [done |]. intros _ Hs. by apply Hs.
  - rewrite bool_decide_eq_true, bool_decide_eq_false. cbn.
    split; [intros _; by eexists |]. split; [intros Hs; by destruct Hs |].
    split.
    + intros body [Hin | Hin]%elem_of_app; [done |].
      by apply list_elem_of_singleton in Hin.
    + split; [done |]. intros Hm. by specialize (Hmethod Hm).
Qed.

End MoreErrorWriterFacts.

Section MoreExamples.
Import Reference.
#[local] Existing Instances refTypes refLibraries refHelpers refErrorMethods
  refStreamLibraries.


Lemma X12_unmarshal_detail_failures_witness :
  UnmarshalJSON badValueDocument
  = Err (fmt_Errorf_w "decode base64: %w" []
           (foreign "base64" "illegal base64 data")).
Proof.
  apply X12_unmarshal_detail_failures. right.
  exists "x/y", "!!!", (foreign "base64" "illegal base64 data").
  repeat split; vm_compute; reflexivity.
Defined.

(** An undecodable code leaves a used receiver with the code it had. *)
Lemma X13_wire_error_unmarshal_witness :
  ∃ e1, wireError_UnmarshalJSON usedWireError bogusCodeDocument = Ok e1 ∧
        Message e1 = "m" ∧
        Details e1 = [Some xyDetail] ∧
        Code_ e1 = CodePermissionDenied.
Proof.
  assert (wireError_UnmarshalJSON usedWireError bogusCodeDocument
          = Ok {| Code_ := CodePermissionDenied; Message := "m";
                  Details := [Some xyDetail] |}) as Hrun
      by (vm_compute; reflexivity).
  eexists. split; [exact Hrun |].
  assert (json_Unmarshal_wireError bogusCodeDocument
          = Ok {| fieldCode := "bogus"; fieldMessage := "m";
                  fieldDetails := [Some xyDocument] |}) as Hjson
      by (vm_compute; reflexivity).
  destruct (proj2 (X13_wire_error_unmarshal usedWireError bogusCodeDocument
                     _ Hjson) _ Hrun) as (Hmessage & _ & Hcode).
  split; [exact Hmessage |]. split; [reflexivity |]. exact Hcode.
Defined.

Lemma X15_trailer_keys_canonical_witness :
  (∀ k, is_Some (canonicalizeTrailer mixedTrailers !! k) →
        http_CanonicalHeaderKey k = k) ∧
  (∀ name values v, mixedTrailers !! name = Some values → v ∈ values →
     ∃ kept, canonicalizeTrailer mixedTrailers !! http_CanonicalHeaderKey name
             = Some kept ∧ v ∈ kept) ∧
  ((∀ k, is_Some (mixedTrailers !! k) → http_CanonicalHeaderKey k = k) →
   canonicalizeTrailer mixedTrailers = mixedTrailers).
Proof.
  apply (X15_trailer_keys_canonical mixedTrailers).
  - reflexivity.
  - assert (rangeOrder mixedTrailers = ["Grpc-Status"; "x-trace"; "X-Trace"])
      as -> by (vm_compute; reflexivity).
    repeat constructor.
Defined.

(** The trailers of the example after the loop, and the whole end of a
    stream. *)
Example trailers_after_the_loop :
  canonicalizeTrailer mixedTrailers
  = {[ "X-Trace" := ["2"; "1"]; "Grpc-Status" := ["5"] ]}.
Proof. vm_compute; reflexivity. Qed.

Example end_of_stream_is_decoded :
  let result :=
    connectStreamingUnmarshaler_Unmarshal freshUnmarshaler
      (ReadSpecial endStreamEnvelope) in
  snd result = ReturnSpecialEnvelope ∧
  Trailer (fst result) = {[ "X-Trace" := ["2"; "1"]; "Grpc-Status" := ["5"] ]} ∧
  EndStreamError (fst result)
  = Some (NewWireError CodeNotFound (errors_New "gone")).
Proof. repeat split; vm_compute; reflexivity. Qed.

(** A special envelope that only has the compressed flag is refused and
    leaves the unmarshaler as it was. *)
Lemma X16_streaming_unmarshal_witness :
  fst (connectStreamingUnmarshaler_Unmarshal freshUnmarshaler
         (ReadSpecial {| Data := endStreamDocument; Flags := 1 |}))
  = freshUnmarshaler.
Proof.
  apply (proj1 (X16_streaming_unmarshal freshUnmarshaler
                  (ReadSpecial {| Data := endStreamDocument; Flags := 1 |}))).
  vm_compute. discriminate.
Defined.

Lemma X18_WithCodec_registers_witness :
  hCodecs (applyToHandler (WithCodec (Some jsonCodec)) namedHandler) !! "json"
  = Some jsonCodec.
Proof.
  apply (X18_WithCodec_registers jsonCodec jsonCodec jsonClient namedHandler);
    [discriminate | reflexivity].
Defined.

Lemma X19_conditional_options_witness :
  WithConditionalHandlerOptions largeReads jsonHandler = jsonHandler ∧
  hReadMaxBytes (WithConditionalHandlerOptions largeReads namedHandler) = 1048576.
Proof.
  split.
  - by apply (X19_conditional_options largeReads jsonHandler).
  - rewrite (proj2 (X19_conditional_options largeReads namedHandler));
      [reflexivity | discriminate].
Defined.

Lemma X20_Write_iff_supported_witness :
  fst (Write refWriter freshResponse (postRequest "application/json") boom)
  = freshResponse.
Proof.
  apply (X20_Write_iff_supported refWriter freshResponse
           (postRequest "application/json") boom).
  vm_compute; reflexivity.
Defined.

End MoreExamples.
